(** * Course-outline state model of the AI Course Architect

    A shallow embedding of the client-side document state of the
    application (types.ts, App.tsx, OutlineView.tsx, ChapterView.tsx,
    SectionView.tsx, geminiService.ts) together with the properties of
    its targeted-update protocol.

    JavaScript objects are references.  The outline, its chapters and
    their sections live in an explicit store; arrays are lists of
    references.  React state updaters are store transformers that may
    allocate new objects.  An asynchronous handler is split at its
    [await]: the part after it (named [_resume]) receives what the
    external call resolved with, the values its closure captured when
    it was dispatched, and the state as it is when it resumes. *)

From Stdlib Require Import Ascii String NArith ZArith.
From stdpp Require Import gmap list strings.

Set Default Proof Using "Type".

(** ** Strings

    A JavaScript string is a sequence of UTF-16 code units. *)

Definition jsstring : Type := list N.

Definition lit (s : string) : jsstring :=
  (λ a, N_of_ascii a) <$> list_ascii_of_string s.

(** ** Data model (types.ts)

    Images, exercise sets and solver sets are built once and never
    updated: they are kept as values.  Sections, chapters and the
    outline are replaced by updated copies and are kept as objects in
    the store (below), so that one can tell a copy from the original. *)

Record GeneratedImage := mkGeneratedImage {
  img_id : jsstring;
  base64 : jsstring;
  prompt : jsstring
}.

Record ExercisePart := mkExercisePart {
  part : jsstring;
  part_solution : jsstring
}.

Record Exercise := mkExercise {
  problem : jsstring;
  parts : list ExercisePart
}.

Record ExerciseSet := mkExerciseSet {
  eset_id : jsstring;
  eset_focusedIdea : option jsstring;
  exercises : list Exercise
}.

Inductive InputType := TextInput | ImageInput.

Record UserInput := mkUserInput {
  input_type : InputType;
  input_content : jsstring
}.

Record SolverSet := mkSolverSet {
  sset_id : jsstring;
  userInput : UserInput;
  sset_solution : jsstring
}.

(** Object references. *)
Definition loc : Type := positive.

Record SectionObj := mkSection {
  sec_id : jsstring;
  sec_title : jsstring;
  content : option jsstring;
  images : list GeneratedImage
}.

Record Chapter := mkChapter {
  chap_id : jsstring;
  chap_title : jsstring;
  sections : list loc;
  exerciseSets : list ExerciseSet;
  solverSets : list SolverSet
}.

Record Outline := mkOutline {
  outline_title : jsstring;
  chapters : list loc;
  examSets : list ExerciseSet
}.

Inductive Language := English | Arabic | French | Spanish | German | Chinese.

Definition Languages : list Language :=
  [English; Arabic; French; Spanish; German; Chinese].

(** ** The object store *)

Inductive object :=
  | ObjSection (s : SectionObj)
  | ObjChapter (c : Chapter)
  | ObjOutline (o : Outline).

(** The store holds the allocated objects and the results that
    [crypto.randomUUID()] is going to return. *)
Record store := mkStore {
  objs : gmap loc object;
  uuid_source : nat → jsstring;
  uuid_count : nat
}.

(** A computation reads the store, may allocate in it, and fails only
    when it follows a reference that does not hold an object of the
    expected kind. *)
Definition M (A : Type) : Type := store → option (A * store).

Definition ret {A} (a : A) : M A := λ σ, Some (a, σ).

Definition bind {A B} (m : M A) (k : A → M B) : M B :=
  λ σ, match m σ with
       | Some (a, σ') => k a σ'
       | None => None
       end.

Notation "x ←← m ;; k" := (bind m (λ x, k))
  (at level 100, m at next level, right associativity).

Definition alloc (o : object) : M loc :=
  λ σ, let l := fresh (dom (objs σ)) in
       Some (l, mkStore (<[l := o]> (objs σ)) (uuid_source σ) (uuid_count σ)).

Definition randomUUID : M jsstring :=
  λ σ, Some (uuid_source σ (uuid_count σ),
             mkStore (objs σ) (uuid_source σ) (S (uuid_count σ))).

Definition readSection (l : loc) : M SectionObj :=
  λ σ, match objs σ !! l with Some (ObjSection s) => Some (s, σ) | _ => None end.

Definition readChapter (l : loc) : M Chapter :=
  λ σ, match objs σ !! l with Some (ObjChapter c) => Some (c, σ) | _ => None end.

Definition readOutline (l : loc) : M Outline :=
  λ σ, match objs σ !! l with Some (ObjOutline o) => Some (o, σ) | _ => None end.

(** [Array.prototype.map] with a store-threading callback. *)
Fixpoint mapM {A B} (f : A → M B) (xs : list A) : M (list B) :=
  match xs with
  | [] => ret []
  | x :: xs' => y ←← f x ;; ys ←← mapM f xs' ;; ret (y :: ys)
  end.

(** ** Truthiness of the values the handlers test *)

Class Truthy (A : Type) := truthy : A → bool.

(** A string is falsy exactly when it is empty. *)
#[global] Instance truthy_string : Truthy jsstring :=
  λ s, match s with [] => false | _ => true end.

(** [null] is falsy; otherwise the value decides. *)
#[global] Instance truthy_nullable {A} `{Truthy A} : Truthy (option A) :=
  λ o, match o with Some a => truthy a | None => false end.

(** Every object is truthy. *)
#[global] Instance truthy_object : Truthy loc := λ _, true.

(** Every array is truthy, the empty one too. *)
Definition truthy_array {A} (xs : list A) : bool := true.

(** ** App.tsx: session state *)

Module App.

Record state := mkState {
  apiKey : option jsstring;
  outline : option loc;
  topic : jsstring;
  numChapters : Z;
  language : Language;
  isLoading : bool;
  error : option jsstring
}.

Definition initial : state :=
  {| apiKey := None; outline := None; topic := []; numChapters := 5;
     language := English; isLoading := false; error := None |}.

Definition setOutlineValue (o : option loc) (st : state) : state :=
  {| apiKey := apiKey st; outline := o; topic := topic st;
     numChapters := numChapters st; language := language st;
     isLoading := isLoading st; error := error st |}.

Definition setTopic (t : jsstring) (st : state) : state :=
  {| apiKey := apiKey st; outline := outline st; topic := t;
     numChapters := numChapters st; language := language st;
     isLoading := isLoading st; error := error st |}.

Definition setIsLoading (b : bool) (st : state) : state :=
  {| apiKey := apiKey st; outline := outline st; topic := topic st;
     numChapters := numChapters st; language := language st;
     isLoading := b; error := error st |}.

Definition setError (e : option jsstring) (st : state) : state :=
  {| apiKey := apiKey st; outline := outline st; topic := topic st;
     numChapters := numChapters st; language := language st;
     isLoading := isLoading st; error := e |}.

(** What [await generateOutline(...)] can do: resolve with an outline
    or with [null], or reject. *)
Inductive outcome :=
  | Resolved (result : option loc)
  | Rejected.

(** [if (!apiKey || !topic) return;] *)
Definition dispatches (st : state) : bool :=
  truthy (apiKey st) && truthy (topic st).

(** [handleGenerateOutline] up to its [await]. *)
Definition handleGenerateOutline_begin (st : state) : state :=
  if dispatches st then setError None (setIsLoading true st) else st.

(** [handleGenerateOutline] from its [await] on. *)
Definition handleGenerateOutline_resume (r : outcome) (st : state) : state :=
  let st1 :=
    match r with
    | Resolved result =>
        if truthy result
        then setOutlineValue result st
        else setError (Some (lit "Failed to generate outline. Please check your API key and try again.")) st
    | Rejected => setError (Some (lit "An unexpected error occurred.")) st
    end in
  setIsLoading false st1.

(** [handleReset]: [setOutline(null); setTopic(''); setError(null);] *)
Definition handleReset (st : state) : state :=
  setError None (setTopic [] (setOutlineValue None st)).

End App.

(** ** The world: the store and the state held by [App] *)

Record World := mkWorld {
  sto : store;
  app : App.state
}.

(** [setOutline(updater)]: the new outline state is the updater applied
    to the previous one. *)
Definition setOutline (f : option loc → M (option loc)) (w : World) : option World :=
  match f (App.outline (app w)) (sto w) with
  | Some (o', σ') => Some (mkWorld σ' (App.setOutlineValue o' (app w)))
  | None => None
  end.

(** ** Targeted updates (OutlineView.tsx, ChapterView.tsx) *)

(** An updater receives the previous object and returns an object. *)
Definition updater : Type := loc → M loc.

(** The function handed to [setOutline] by [updateChapter]. *)
Definition updateChapter_fn (chapterId : jsstring) (upd : updater)
    (prevOutline : option loc) : M (option loc) :=
  match prevOutline with
  | None => ret None
  | Some lo =>
      o ←← readOutline lo ;;
      cs ←← mapM (λ c, ch ←← readChapter c ;;
                      if decide (chap_id ch = chapterId) then upd c else ret c)
                (chapters o) ;;
      lo' ←← alloc (ObjOutline {| outline_title := outline_title o;
                                  chapters := cs;
                                  examSets := examSets o |}) ;;
      ret (Some lo')
  end.

Definition updateChapter (chapterId : jsstring) (upd : updater) (w : World) : option World :=
  setOutline (updateChapter_fn chapterId upd) w.

(** The updater that [updateSection] passes to [updateChapter]. *)
Definition updateSection_fn (sectionId : jsstring) (upd : updater) : updater :=
  λ c,
    prevChapter ←← readChapter c ;;
    ss ←← mapM (λ s, sec ←← readSection s ;;
                    if decide (sec_id sec = sectionId) then upd s else ret s)
              (sections prevChapter) ;;
    alloc (ObjChapter {| chap_id := chap_id prevChapter;
                         chap_title := chap_title prevChapter;
                         sections := ss;
                         exerciseSets := exerciseSets prevChapter;
                         solverSets := solverSets prevChapter |}).

(** [updateSection] of the [ChapterView] rendered for the chapter
    [chapterId]. *)
Definition updateSection (chapterId sectionId : jsstring) (upd : updater)
    (w : World) : option World :=
  updateChapter chapterId (updateSection_fn sectionId upd) w.

(** ** Removing a set by id

    [sets.filter(s => s.id !== id)] *)
Definition removeById {A} (get_id : A → jsstring) (id : jsstring) (sets : list A) : list A :=
  filter (λ s, get_id s ≠ id) sets.

(** The result of the exercise generators, with the type TypeScript
    gives it: an object with an [exercises] array. *)
Record ExercisesData := mkExercisesData {
  data_exercises : list Exercise
}.

#[global] Instance truthy_data : Truthy ExercisesData := λ _, true.

(** The value the generators return on failure: [{ exercises: [] }]. *)
Definition failureData : ExercisesData := {| data_exercises := [] |}.

(** What [generateExam] resolved with, as far as [handleGenerateExam]
    looks at it.  [generateExercises] returns whatever the response
    text parses to, so at run time this is [null] (or [undefined]), on
    which [data.exercises] throws; or a value whose [exercises] is
    falsy, [undefined] when it has no such property; or an object with
    an array of exercises. *)
Inductive ExamResult :=
  | ExamNullish
  | ExamNoExercises
  | ExamExercises (data : ExercisesData).

(** ** OutlineView.tsx *)

Module OutlineView.

Record state := mkState {
  isLoading : gmap jsstring bool;
  isModalOpen : bool;
  focusedIdea : jsstring
}.

Definition initial : state :=
  {| isLoading := ∅; isModalOpen := false; focusedIdea := [] |}.

(** [handleGenerateExam] up to its [await]. *)
Definition handleGenerateExam_begin (st : state) : state :=
  {| isLoading := <[lit "exam" := true]> (isLoading st);
     isModalOpen := isModalOpen st;
     focusedIdea := focusedIdea st |}.

(** The updater of [handleGenerateExam]:
    [prev => prev ? ({ ...prev, examSets: [...prev.examSets, newSet] }) : null] *)
Definition appendExamSet (newSet : ExerciseSet) (prev : option loc) : M (option loc) :=
  match prev with
  | Some lo =>
      o ←← readOutline lo ;;
      lo' ←← alloc (ObjOutline {| outline_title := outline_title o;
                                  chapters := chapters o;
                                  examSets := examSets o ++ [newSet] |}) ;;
      ret (Some lo')
  | None => ret None
  end.

(** [handleGenerateExam(idea)] from its [await] on; [data] is what
    [generateExam] resolved with.  On [null], [data.exercises] throws
    a [TypeError] that nothing catches: the rest of the handler does
    not run, and the world and the view are left as they were when it
    was suspended. *)
Definition handleGenerateExam_resume (idea : jsstring) (data : ExamResult)
    (w : World) (st : state) : option (World * state) :=
  let st' := {| isLoading := <[lit "exam" := false]> (isLoading st);
                isModalOpen := false;
                focusedIdea := [] |} in
  match data with
  | ExamNullish => Some (w, st)
  | ExamNoExercises => Some (w, st')
  | ExamExercises d =>
      w' ← (if truthy_array (data_exercises d) then
              match randomUUID (sto w) with
              | Some (id, σ1) =>
                  let newSet := {| eset_id := id; eset_focusedIdea := Some idea;
                                   exercises := data_exercises d |} in
                  setOutline (appendExamSet newSet) (mkWorld σ1 (app w))
              | None => None
              end
            else Some w) ;
      Some (w', st')
  end.

(** [onDelete] of an exam set:
    [prev => prev ? ({ ...prev, examSets: prev.examSets.filter(s => s.id !== id) }) : null] *)
Definition deleteExamSet (id : jsstring) (prev : option loc) : M (option loc) :=
  match prev with
  | Some lo =>
      o ←← readOutline lo ;;
      lo' ←← alloc (ObjOutline {| outline_title := outline_title o;
                                  chapters := chapters o;
                                  examSets := removeById eset_id id (examSets o) |}) ;;
      ret (Some lo')
  | None => ret None
  end.

Definition onDeleteExamSet (id : jsstring) (w : World) : option World :=
  setOutline (deleteExamSet id) w.

End OutlineView.

(** ** ChapterView.tsx *)

(** [Partial<Chapter>]: an object holding some of a chapter's fields. *)
Record PartialChapter := mkPartialChapter {
  p_id : option jsstring;
  p_title : option jsstring;
  p_sections : option (list loc);
  p_exerciseSets : option (list ExerciseSet);
  p_solverSets : option (list SolverSet)
}.

(** [{ ...prevChapter, ...patch }] *)
Definition spread (prevChapter : Chapter) (patch : PartialChapter) : Chapter :=
  {| chap_id := default (chap_id prevChapter) (p_id patch);
     chap_title := default (chap_title prevChapter) (p_title patch);
     sections := default (sections prevChapter) (p_sections patch);
     exerciseSets := default (exerciseSets prevChapter) (p_exerciseSets patch);
     solverSets := default (solverSets prevChapter) (p_solverSets patch) |}.

Module ChapterView.

Record state := mkState {
  isOpen : bool;
  isLoading : gmap jsstring bool;
  modal : option jsstring;
  focusedIdea : jsstring;
  solverText : jsstring;
  solverImage : option jsstring;
  extractedTopics : list jsstring
}.

Definition initial : state :=
  {| isOpen := false; isLoading := ∅; modal := None; focusedIdea := [];
     solverText := []; solverImage := None; extractedTopics := [] |}.

(** [handleAction] up to its [await]. *)
Definition handleAction_begin (action : jsstring) (st : state) : state :=
  {| isOpen := isOpen st;
     isLoading := <[action := true]> (isLoading st);
     modal := modal st; focusedIdea := focusedIdea st;
     solverText := solverText st; solverImage := solverImage st;
     extractedTopics := extractedTopics st |}.

(** [prevChapter => ({ ...prevChapter, ...updater(result) })] *)
Definition patchChapter {R} (upd : R → M PartialChapter) (result : R) : updater :=
  λ prev,
    prevChapter ←← readChapter prev ;;
    patch ←← upd result ;;
    alloc (ObjChapter (spread prevChapter patch)).

(** [handleAction] from its [await] on.  [chapter] is the chapter
    object the component was rendered with when the handler was
    dispatched; [result] is what the generator resolved with. *)
Definition handleAction_resume {R} `{Truthy R} (chapter : loc) (action : jsstring)
    (result : R) (upd : R → M PartialChapter)
    (w : World) (st : state) : option (World * state) :=
  w' ← (if truthy result then
          match readChapter chapter (sto w) with
          | Some (ch, _) => updateChapter (chap_id ch) (patchChapter upd result) w
          | None => None
          end
        else Some w) ;
  Some (w', {| isOpen := isOpen st;
               isLoading := <[action := false]> (isLoading st);
               modal := None;
               focusedIdea := [];
               solverText := solverText st; solverImage := solverImage st;
               extractedTopics := extractedTopics st |}).

(** The [updater] argument of [handleGenerateExercises]:
    [data => ({ exerciseSets: [...chapter.exerciseSets,
       { id: crypto.randomUUID(), focusedIdea: idea, exercises: data.exercises }] })] *)
Definition exercisesPatch (chapter : loc) (idea : jsstring) (data : ExercisesData)
    : M PartialChapter :=
  ch ←← readChapter chapter ;;
  id ←← randomUUID ;;
  ret {| p_id := None; p_title := None; p_sections := None;
         p_exerciseSets :=
           Some (exerciseSets ch ++
                 [{| eset_id := id; eset_focusedIdea := Some idea;
                     exercises := data_exercises data |}]);
         p_solverSets := None |}.

Definition handleGenerateExercises_begin : state → state :=
  handleAction_begin (lit "exercises").

Definition handleGenerateExercises_resume (chapter : loc) (idea : jsstring)
    (data : ExercisesData) (w : World) (st : state) : option (World * state) :=
  handleAction_resume chapter (lit "exercises") data (exercisesPatch chapter idea) w st.

(** The [updater] argument of [handleSolverSubmit]; [solverImage0] and
    [solverText0] are the values the closure captured. *)
Definition solverPatch (chapter : loc) (solverImage0 : option jsstring)
    (solverText0 : jsstring) (solution : jsstring) : M PartialChapter :=
  ch ←← readChapter chapter ;;
  id ←← randomUUID ;;
  ret {| p_id := None; p_title := None; p_sections := None;
         p_exerciseSets := None;
         p_solverSets :=
           Some (solverSets ch ++
                 [{| sset_id := id;
                     userInput :=
                       {| input_type := if truthy solverImage0 then ImageInput else TextInput;
                          input_content :=
                            match solverImage0 with
                            | Some img => if truthy img then img else solverText0
                            | None => solverText0
                            end |};
                     sset_solution := solution |}]) |}.

Definition handleSolverSubmit_begin : state → state :=
  handleAction_begin (lit "solver").

(** [handleAction(...).then(() => { setSolverImage(null); setSolverText(''); })] *)
Definition handleSolverSubmit_resume (chapter : loc) (solverImage0 : option jsstring)
    (solverText0 : jsstring) (solution : jsstring)
    (w : World) (st : state) : option (World * state) :=
  '(w', st') ← handleAction_resume chapter (lit "solver") solution
                 (solverPatch chapter solverImage0 solverText0) w st ;
  Some (w', {| isOpen := isOpen st'; isLoading := isLoading st';
               modal := modal st'; focusedIdea := focusedIdea st';
               solverText := [];
               solverImage := None;
               extractedTopics := extractedTopics st' |}).

(** [onDelete] of a chapter exercise set:
    [p => ({ ...p, exerciseSets: p.exerciseSets.filter(s => s.id !== id) })] *)
Definition deleteExerciseSet (id : jsstring) : updater :=
  λ l,
    p ←← readChapter l ;;
    alloc (ObjChapter {| chap_id := chap_id p; chap_title := chap_title p;
                         sections := sections p;
                         exerciseSets := removeById eset_id id (exerciseSets p);
                         solverSets := solverSets p |}).

(** [onDelete] of a solver set:
    [p => ({ ...p, solverSets: p.solverSets.filter(s => s.id !== id) })] *)
Definition deleteSolverSet (id : jsstring) : updater :=
  λ l,
    p ←← readChapter l ;;
    alloc (ObjChapter {| chap_id := chap_id p; chap_title := chap_title p;
                         sections := sections p;
                         exerciseSets := exerciseSets p;
                         solverSets := removeById sset_id id (solverSets p) |}).

Definition onDeleteExerciseSet (chapter : loc) (id : jsstring) (w : World) : option World :=
  match readChapter chapter (sto w) with
  | Some (ch, _) => updateChapter (chap_id ch) (deleteExerciseSet id) w
  | None => None
  end.

Definition onDeleteSolverSet (chapter : loc) (id : jsstring) (w : World) : option World :=
  match readChapter chapter (sto w) with
  | Some (ch, _) => updateChapter (chap_id ch) (deleteSolverSet id) w
  | None => None
  end.

End ChapterView.

(** ** SectionView.tsx *)

Module SectionView.

Record state := mkState {
  isOpen : bool;
  isLoading : bool;
  isImageLoading : bool;
  isModalOpen : bool;
  focusedIdea : jsstring
}.

Definition handleGenerateImage_begin (st : state) : state :=
  {| isOpen := isOpen st; isLoading := isLoading st; isImageLoading := true;
     isModalOpen := isModalOpen st; focusedIdea := focusedIdea st |}.

(** [prevSection => ({ ...prevSection, images: [...prevSection.images, newImage] })] *)
Definition appendImage (newImage : GeneratedImage) : updater :=
  λ l,
    prevSection ←← readSection l ;;
    alloc (ObjSection {| sec_id := sec_id prevSection;
                         sec_title := sec_title prevSection;
                         content := content prevSection;
                         images := images prevSection ++ [newImage] |}).

(** [handleGenerateImage(idea)] from its [await] on.  [chapter] and
    [section] are the objects the enclosing views were rendered with;
    [base64Image] is what [generateImage] resolved with. *)
Definition handleGenerateImage_resume (chapter section : loc) (idea : jsstring)
    (base64Image : option jsstring) (w : World) (st : state) : option (World * state) :=
  w' ← (if truthy base64Image then
          match readChapter chapter (sto w), readSection section (sto w) with
          | Some (ch, _), Some (sec, _) =>
              match randomUUID (sto w) with
              | Some (id, σ1) =>
                  let newImage :=
                    {| img_id := id;
                       base64 := lit "data:image/jpeg;base64," ++ default [] base64Image;
                       prompt := if truthy idea then idea else sec_title sec |} in
                  updateSection (chap_id ch) (sec_id sec) (appendImage newImage)
                                (mkWorld σ1 (app w))
              | None => None
              end
          | _, _ => None
          end
        else Some w) ;
  Some (w', {| isOpen := isOpen st; isLoading := isLoading st;
               isImageLoading := false;
               isModalOpen := isModalOpen st;
               focusedIdea := [] |}).

End SectionView.

(** ** geminiService.ts: JSON repair and the call wrappers *)

(** Values that [JSON.parse] produces, and [undefined].  A number keeps
    its literal: nothing here computes with it. *)
#[local] Set Warnings "-register-all".
Inductive jsval :=
  | JUndefined
  | JNull
  | JBool (b : bool)
  | JNum (literal : jsstring)
  | JStr (s : jsstring)
  | JArr (items : list jsval)
  | JObj (fields : list (jsstring * jsval)).

Section Cleanup.

Local Open Scope N_scope.

Definition backtick : N := 96.
Definition comma : N := 44.
Definition rbrace : N := 125.
Definition rbracket : N := 93.

Definition fence : jsstring := [backtick; backtick; backtick].
Definition fence_json : jsstring := fence ++ lit "json".

Fixpoint starts_with (p s : jsstring) : bool :=
  match p, s with
  | [], _ => true
  | a :: p', b :: s' => (a =? b) && starts_with p' s'
  | _ :: _, [] => false
  end.

(** [s.replace(/```json|```/g, '')]; [skip] counts the characters of
    the current match still to drop. *)
Fixpoint stripFences_from (skip : nat) (s : jsstring) : jsstring :=
  match s with
  | [] => []
  | c :: s' =>
      match skip with
      | S k => stripFences_from k s'
      | O =>
          if starts_with fence_json s then stripFences_from 6 s'
          else if starts_with fence s then stripFences_from 2 s'
          else c :: stripFences_from 0 s'
      end
  end.

Definition stripFences : jsstring → jsstring := stripFences_from 0.

(** WhiteSpace and LineTerminator code units: what [trim] removes and
    what [\s] matches. *)
Definition is_space (c : N) : bool :=
  (c =? 9) || (c =? 10) || (c =? 11) || (c =? 12) || (c =? 13) || (c =? 32)
  || (c =? 160) || (c =? 5760) || ((8192 <=? c) && (c <=? 8202))
  || (c =? 8232) || (c =? 8233) || (c =? 8239) || (c =? 8287)
  || (c =? 12288) || (c =? 65279).

Fixpoint trimStart (s : jsstring) : jsstring :=
  match s with
  | c :: s' => if is_space c then trimStart s' else s
  | [] => []
  end.

Definition trimEnd (s : jsstring) : jsstring := reverse (trimStart (reverse s)).

Definition trim (s : jsstring) : jsstring := trimEnd (trimStart s).

(** Length of the prefix of [s] matched by [\s*[\}\]]], if any. *)
Fixpoint closing_group (s : jsstring) : option nat :=
  match s with
  | [] => None
  | c :: s' =>
      if (c =? rbrace) || (c =? rbracket) then Some 1%nat
      else if is_space c then S <$> closing_group s'
      else None
  end.

(** [s.replace(/,(\s*[\}\]])/g, '$1')]; [copy] counts the characters
    of the captured group still to emit. *)
Fixpoint stripTrailingCommas_from (copy : nat) (s : jsstring) : jsstring :=
  match s with
  | [] => []
  | c :: s' =>
      match copy with
      | S k => c :: stripTrailingCommas_from k s'
      | O =>
          if c =? comma then
            match closing_group s' with
            | Some n => stripTrailingCommas_from n s'
            | None => c :: stripTrailingCommas_from 0 s'
            end
          else c :: stripTrailingCommas_from 0 s'
      end
  end.

Definition stripTrailingCommas : jsstring → jsstring := stripTrailingCommas_from 0.

(** The text [tryParseJson] hands to [JSON.parse]. *)
Definition cleanup (jsonString : jsstring) : jsstring :=
  stripTrailingCommas (trim (stripFences jsonString)).

End Cleanup.

(** [JSON.parse], the built-in: a recursive-descent reader of the JSON
    grammar (ECMA-404).  [None] stands for the [SyntaxError] it throws. *)
Section JSON.

Local Open Scope N_scope.

Definition quote : N := 34.
Definition backslash : N := 92.

(** JSON whitespace: tab, line feed, carriage return, space. *)
Definition is_json_ws (c : N) : bool :=
  (c =? 9) || (c =? 10) || (c =? 13) || (c =? 32).

Fixpoint skip_ws (s : jsstring) : jsstring :=
  match s with
  | c :: s' => if is_json_ws c then skip_ws s' else s
  | [] => []
  end.

Definition is_digit (c : N) : bool := (48 <=? c) && (c <=? 57).

Definition hex_value (c : N) : option N :=
  if is_digit c then Some (c - 48)
  else if (97 <=? c) && (c <=? 102) then Some (c - 87)
  else if (65 <=? c) && (c <=? 70) then Some (c - 55)
  else None.

(** The characters of a string literal after its opening quote:
    the decoded string and the text after the closing quote. *)
Fixpoint parse_chars (s : jsstring) : option (jsstring * jsstring) :=
  match s with
  | [] => None
  | c :: r =>
      if c =? quote then Some ([], r)
      else if c =? backslash then
        match r with
        | e :: r1 =>
            let simple (u : N) :=
              '(str, rest) ← parse_chars r1 ; Some (u :: str, rest) in
            if e =? quote then simple quote
            else if e =? backslash then simple backslash
            else if e =? 47 then simple 47
            else if e =? 98 then simple 8
            else if e =? 102 then simple 12
            else if e =? 110 then simple 10
            else if e =? 114 then simple 13
            else if e =? 116 then simple 9
            else if e =? 117 then
              match r1 with
              | h1 :: h2 :: h3 :: h4 :: r2 =>
                  a ← hex_value h1 ; b ← hex_value h2 ;
                  c' ← hex_value h3 ; d ← hex_value h4 ;
                  '(str, rest) ← parse_chars r2 ;
                  Some (((a * 16 + b) * 16 + c') * 16 + d :: str, rest)
              | _ => None
              end
            else None
        | [] => None
        end
      else if c <? 32 then None
      else '(str, rest) ← parse_chars r ; Some (c :: str, rest)
  end.

Fixpoint take_digits (s : jsstring) : jsstring * jsstring :=
  match s with
  | c :: s' =>
      if is_digit c then let '(ds, r) := take_digits s' in (c :: ds, r)
      else ([], s)
  | [] => ([], [])
  end.

(** A number literal at the head of [s]: the literal and the rest. *)
Definition parse_number (s : jsstring) : option (jsstring * jsstring) :=
  let '(sign, s1) :=
    match s with c :: r => if c =? 45 then ([c], r) else ([], s) | [] => ([], s) end in
  '(int, s2) ←
    match s1 with
    | c :: r =>
        if c =? 48 then Some ([c], r)
        else if is_digit c then let '(ds, r') := take_digits r in Some (c :: ds, r')
        else None
    | [] => None
    end ;
  '(frac, s3) ←
    match s2 with
    | c :: r =>
        if c =? 46 then
          match take_digits r with
          | ([], _) => None
          | (ds, r') => Some (c :: ds, r')
          end
        else Some ([], s2)
    | [] => Some ([], s2)
    end ;
  '(exp, s4) ←
    match s3 with
    | c :: r =>
        if (c =? 101) || (c =? 69) then
          let '(sg, r1) :=
            match r with
            | c1 :: r' => if (c1 =? 43) || (c1 =? 45) then ([c1], r') else ([], r)
            | [] => ([], r)
            end in
          match take_digits r1 with
          | ([], _) => None
          | (ds, r') => Some (c :: sg ++ ds, r')
          end
        else Some ([], s3)
    | [] => Some ([], s3)
    end ;
  Some (sign ++ int ++ frac ++ exp, s4).

(** [obj[key] = v] on the property list of an object under
    construction: an existing property keeps its place. *)
Fixpoint set_field (key : jsstring) (v : jsval) (fields : list (jsstring * jsval))
    : list (jsstring * jsval) :=
  match fields with
  | [] => [(key, v)]
  | (k, u) :: fs =>
      if decide (k = key) then (k, v) :: fs else (k, u) :: set_field key v fs
  end.

Fixpoint parse_value (fuel : nat) (s : jsstring) : option (jsval * jsstring) :=
  match fuel with
  | O => None
  | S fuel' =>
      match skip_ws s with
      | [] => None
      | c :: r =>
          if c =? 123 then
            match skip_ws r with
            | c1 :: r1 =>
                if c1 =? rbrace then Some (JObj [], r1)
                else parse_members fuel' [] r
            | [] => None
            end
          else if c =? 91 then
            match skip_ws r with
            | c1 :: r1 =>
                if c1 =? rbracket then Some (JArr [], r1)
                else parse_elements fuel' [] r
            | [] => None
            end
          else if c =? quote then
            '(str, rest) ← parse_chars r ; Some (JStr str, rest)
          else if starts_with (lit "true") (c :: r) then Some (JBool true, drop 4 (c :: r))
          else if starts_with (lit "false") (c :: r) then Some (JBool false, drop 5 (c :: r))
          else if starts_with (lit "null") (c :: r) then Some (JNull, drop 4 (c :: r))
          else '(num, rest) ← parse_number (c :: r) ; Some (JNum num, rest)
      end
  end
with parse_elements (fuel : nat) (acc : list jsval) (s : jsstring)
    : option (jsval * jsstring) :=
  match fuel with
  | O => None
  | S fuel' =>
      '(v, r) ← parse_value fuel' s ;
      match skip_ws r with
      | c :: r1 =>
          if c =? comma then parse_elements fuel' (acc ++ [v]) r1
          else if c =? rbracket then Some (JArr (acc ++ [v]), r1)
          else None
      | [] => None
      end
  end
with parse_members (fuel : nat) (acc : list (jsstring * jsval)) (s : jsstring)
    : option (jsval * jsstring) :=
  match fuel with
  | O => None
  | S fuel' =>
      match skip_ws s with
      | c :: r =>
          if c =? quote then
            '(key, r1) ← parse_chars r ;
            match skip_ws r1 with
            | c1 :: r2 =>
                if c1 =? 58 then
                  '(v, r3) ← parse_value fuel' r2 ;
                  match skip_ws r3 with
                  | c2 :: r4 =>
                      if c2 =? comma then parse_members fuel' (set_field key v acc) r4
                      else if c2 =? rbrace then Some (JObj (set_field key v acc), r4)
                      else None
                  | [] => None
                  end
                else None
            | [] => None
            end
          else None
      | [] => None
      end
  end.

(** The whole text must be one value between optional whitespace. *)
Definition JSON_parse (text : jsstring) : option jsval :=
  '(v, rest) ← parse_value (2 * length text + 2) text ;
  match skip_ws rest with
  | [] => Some v
  | _ :: _ => None
  end.

End JSON.

(** [tryParseJson(jsonString, fallback)]: the parsed value, or
    [fallback] when [JSON.parse] throws. *)
Definition tryParseJson (jsonString : jsstring) (fallback : jsval) : jsval :=
  match JSON_parse (cleanup jsonString) with
  | Some v => v
  | None => fallback
  end.

(** What [await ai.models.generateContent(...)] can do: resolve with a
    response whose [text] is given, or reject. *)
Inductive response :=
  | Responds (text : jsstring)
  | Rejects.

(** The value of a property of an object built by [JSON.parse] (its
    property list holds each key once), [undefined] without one. *)
Fixpoint get_field (key : jsstring) (fields : list (jsstring * jsval)) : jsval :=
  match fields with
  | [] => JUndefined
  | (k, v) :: fs => if decide (k = key) then v else get_field key fs
  end.

(** [result.topics].  [None] stands for the [TypeError] thrown on
    [undefined] and [null]; arrays, strings, numbers and booleans have
    no such property. *)
Definition prop_topics (result : jsval) : option jsval :=
  match result with
  | JUndefined | JNull => None
  | JObj fields => Some (get_field (lit "topics") fields)
  | JArr _ | JStr _ | JNum _ | JBool _ => Some JUndefined
  end.

(** [extractTopicsFromText]: the value its promise resolves with. *)
Definition extractTopicsFromText (r : response) : jsval :=
  match r with
  | Responds text =>
      let result := tryParseJson text (JObj [(lit "topics", JArr [])]) in
      match prop_topics result with
      | Some topics => topics
      | None => JArr []
      end
  | Rejects => JArr []
  end.

(** [generateExercises]: the value its promise resolves with. *)
Definition generateExercises (r : response) : jsval :=
  match r with
  | Responds jsonText => tryParseJson jsonText (JObj [(lit "exercises", JArr [])])
  | Rejects => JObj [(lit "exercises", JArr [])]
  end.

(** A string array, as the declared result type [string[]] promises. *)
Definition is_string_array (v : jsval) : bool :=
  match v with
  | JArr items => forallb (λ x, match x with JStr _ => true | _ => false end) items
  | _ => false
  end.

(** The object that a value of type [ExercisesData] is at run time. *)
Definition jsval_of_part (p : ExercisePart) : jsval :=
  JObj [(lit "part", JStr (part p)); (lit "solution", JStr (part_solution p))].

Definition jsval_of_exercise (e : Exercise) : jsval :=
  JObj [(lit "problem", JStr (problem e));
        (lit "parts", JArr (jsval_of_part <$> parts e))].

Definition jsval_of_data (d : ExercisesData) : jsval :=
  JObj [(lit "exercises", JArr (jsval_of_exercise <$> data_exercises d))].

(** * Vocabulary of the properties *)

(** ** Well-formed trees and well-behaved updaters *)

(** Every reference of [cs] holds a chapter. *)
Definition chapters_allocated (σ : store) (cs : list loc) : Prop :=
  ∀ c, c ∈ cs → ∃ ch, objs σ !! c = Some (ObjChapter ch).

(** Every reference of [ss] holds a section. *)
Definition sections_allocated (σ : store) (ss : list loc) : Prop :=
  ∀ s, s ∈ ss → ∃ sec, objs σ !! s = Some (ObjSection sec).

(** An updater is well behaved on the store [σ] for the chapters [cs]
    with id [X] when, wherever the store has grown to, it returns an
    object and only allocates. *)
Definition allocates_on (σ : store) (cs : list loc) (X : jsstring) (f : updater) : Prop :=
  ∀ c ch σ1, c ∈ cs → objs σ !! c = Some (ObjChapter ch) → chap_id ch = X →
    objs σ ⊆ objs σ1 →
    ∃ c' σ2, f c σ1 = Some (c', σ2) ∧ objs σ1 ⊆ objs σ2.

(** The same for an updater of the sections [ss] with id [Y]. *)
Definition allocates_on_sections (σ : store) (ss : list loc) (Y : jsstring)
    (f : updater) : Prop :=
  ∀ s sec σ1, s ∈ ss → objs σ !! s = Some (ObjSection sec) → sec_id sec = Y →
    objs σ ⊆ objs σ1 →
    ∃ s' σ2, f s σ1 = Some (s', σ2) ∧ objs σ1 ⊆ objs σ2.



(** ** Later stores *)

(** [σ'] is a later state of [σ]: every object is still there, and
    [crypto.randomUUID()] has only moved on. *)
Definition store_extends (σ σ' : store) : Prop :=
  objs σ ⊆ objs σ' ∧
  uuid_source σ' = uuid_source σ ∧
  uuid_count σ ≤ uuid_count σ'.

(** On the chapters of [cs] with the id [X], and wherever the store has
    moved on to, the updater [f] draws one identifier and allocates
    one chapter object, [build] of the chapter and the identifier. *)
Definition mints_chapter (σ : store) (cs : list loc) (X : jsstring) (f : updater)
    (build : Chapter → jsstring → Chapter) : Prop :=
  ∀ c ch σ1, c ∈ cs → objs σ !! c = Some (ObjChapter ch) → chap_id ch = X →
    store_extends σ σ1 →
    f c σ1 = Some (fresh (dom (objs σ1)),
                   mkStore (<[fresh (dom (objs σ1)) :=
                                ObjChapter (build ch (uuid_source σ1 (uuid_count σ1)))]>
                              (objs σ1))
                           (uuid_source σ1) (S (uuid_count σ1))).

(** ** Reading the current tree *)

(** The outline object the outline state refers to. *)
Definition currentOutline (w : World) : option Outline :=
  lo ← App.outline (app w) ;
  match objs (sto w) !! lo with
  | Some (ObjOutline o) => Some o
  | _ => None
  end.

Fixpoint findChapter (σ : store) (X : jsstring) (cs : list loc) : option Chapter :=
  match cs with
  | [] => None
  | c :: cs' =>
      match objs σ !! c with
      | Some (ObjChapter ch) =>
          if decide (chap_id ch = X) then Some ch else findChapter σ X cs'
      | _ => findChapter σ X cs'
      end
  end.

(** The chapter with the id [X] in the current outline. *)
Definition chapterById (w : World) (X : jsstring) : option Chapter :=
  o ← currentOutline w ; findChapter (sto w) X (chapters o).

(** ** The objects the handlers build *)

(** The set [handleGenerateExercises] and [handleGenerateExam] build. *)
Definition newExerciseSet (id idea : jsstring) (data : ExercisesData) : ExerciseSet :=
  {| eset_id := id; eset_focusedIdea := Some idea; exercises := data_exercises data |}.

(** Copies of a chapter or a section with one field replaced. *)
Definition withExerciseSets (ch : Chapter) (sets : list ExerciseSet) : Chapter :=
  {| chap_id := chap_id ch; chap_title := chap_title ch; sections := sections ch;
     exerciseSets := sets; solverSets := solverSets ch |}.

Definition withSolverSets (ch : Chapter) (sets : list SolverSet) : Chapter :=
  {| chap_id := chap_id ch; chap_title := chap_title ch; sections := sections ch;
     exerciseSets := exerciseSets ch; solverSets := sets |}.

Definition withSections (ch : Chapter) (ss : list loc) : Chapter :=
  {| chap_id := chap_id ch; chap_title := chap_title ch; sections := ss;
     exerciseSets := exerciseSets ch; solverSets := solverSets ch |}.

Definition withImages (sec : SectionObj) (imgs : list GeneratedImage) : SectionObj :=
  {| sec_id := sec_id sec; sec_title := sec_title sec; content := content sec;
     images := imgs |}.

(** The image [handleGenerateImage] builds for the section [sec0]. *)
Definition newImage (id idea b : jsstring) (sec0 : SectionObj) : GeneratedImage :=
  {| img_id := id;
     base64 := lit "data:image/jpeg;base64," ++ b;
     prompt := if truthy idea then idea else sec_title sec0 |}.

(** The state of a [ChapterView] after [handleAction] has resumed:
    [setIsLoading(prev => ({...prev, [action]: false}))], [setModal(null)],
    [setFocusedIdea('')]. *)
Definition resumed (action : jsstring) (st : ChapterView.state) : ChapterView.state :=
  {| ChapterView.isOpen := ChapterView.isOpen st;
     ChapterView.isLoading := <[action := false]> (ChapterView.isLoading st);
     ChapterView.modal := None;
     ChapterView.focusedIdea := [];
     ChapterView.solverText := ChapterView.solverText st;
     ChapterView.solverImage := ChapterView.solverImage st;
     ChapterView.extractedTopics := ChapterView.extractedTopics st |}.

(** The same after [handleSolverSubmit] has resumed: moreover
    [setSolverImage(null)] and [setSolverText('')]. *)
Definition solverResumed (st : ChapterView.state) : ChapterView.state :=
  {| ChapterView.isOpen := ChapterView.isOpen st;
     ChapterView.isLoading := <[lit "solver" := false]> (ChapterView.isLoading st);
     ChapterView.modal := None;
     ChapterView.focusedIdea := [];
     ChapterView.solverText := [];
     ChapterView.solverImage := None;
     ChapterView.extractedTopics := ChapterView.extractedTopics st |}.

(** ** Texts that the cleanup pass leaves alone *)

(** The text contains the fence marker. *)
Definition has_fence (s : jsstring) : Prop :=
  ∃ pre post, s = pre ++ fence ++ post.

(** The text contains a comma followed by optional whitespace and a
    closing brace or bracket. *)
Definition has_trailing_comma (s : jsstring) : Prop :=
  ∃ pre ws c post,
    s = pre ++ comma :: ws ++ c :: post ∧
    Forall (λ x, is_space x = true) ws ∧
    (c = rbrace ∨ c = rbracket).

(** The text neither starts nor ends with whitespace. *)
Definition untrimmed (s : jsstring) : Prop :=
  (∀ c t, s = c :: t → is_space c = false) ∧
  (∀ c t, s = t ++ [c] → is_space c = false).

(** Deciders for the first two, to check given texts. *)
Fixpoint contains_fence (s : jsstring) : bool :=
  match s with
  | [] => false
  | _ :: s' => starts_with fence s || contains_fence s'
  end.

Fixpoint contains_trailing_comma (s : jsstring) : bool :=
  match s with
  | [] => false
  | c :: s' =>
      ((c =? comma)%N && bool_decide (is_Some (closing_group s')))
      || contains_trailing_comma s'
  end.

(** ** A small course and some texts to run the code on *)

Definition demo_set : ExerciseSet :=
  {| eset_id := lit "e1"; eset_focusedIdea := Some (lit "limits"); exercises := [] |}.

Definition demo_set2 : ExerciseSet :=
  {| eset_id := lit "e2"; eset_focusedIdea := None; exercises := [] |}.

Definition demo_store : store :=
  {| objs :=
       <[4%positive := ObjOutline {| outline_title := lit "Algebra";
                                     chapters := [2%positive; 3%positive];
                                     examSets := [] |}]>
       (<[3%positive := ObjChapter {| chap_id := lit "c2"; chap_title := lit "Groups";
                                      sections := []; exerciseSets := [];
                                      solverSets := [] |}]>
       (<[2%positive := ObjChapter {| chap_id := lit "c1"; chap_title := lit "Sets";
                                      sections := [1%positive];
                                      exerciseSets := [demo_set];
                                      solverSets := [] |}]>
       (<[1%positive := ObjSection {| sec_id := lit "s1"; sec_title := lit "Unions";
                                      content := None; images := [] |}]> ∅)));
     uuid_source := λ n, lit "uuid-" ++ [N.of_nat n + 48]%N;
     uuid_count := 0 |}.

Definition demo_set3 : ExerciseSet :=
  {| eset_id := lit "e3"; eset_focusedIdea := Some (lit "series"); exercises := [] |}.

Definition demo_world : World :=
  {| sto := demo_store;
     app := {| App.apiKey := Some (lit "key"); App.outline := Some 4%positive;
               App.topic := lit "Algebra"; App.numChapters := 2;
               App.language := English; App.isLoading := false;
               App.error := None |} |}.

(** The same course with three exam sets. *)
Definition demo_exam_world : World :=
  {| sto := mkStore
              (<[4%positive := ObjOutline {| outline_title := lit "Algebra";
                                             chapters := [2%positive; 3%positive];
                                             examSets := [demo_set; demo_set2; demo_set3] |}]>
                 (objs demo_store))
              (uuid_source demo_store) (uuid_count demo_store);
     app := app demo_world |}.

Definition demo_typing : ChapterView.state :=
  {| ChapterView.isOpen := true;
     ChapterView.isLoading := {[ lit "solver" := true ]};
     ChapterView.modal := Some (lit "solver");
     ChapterView.focusedIdea := lit "derivatives";
     ChapterView.solverText := lit "x^2 = 4";
     ChapterView.solverImage := Some (lit "data:image/png;base64,AAAA");
     ChapterView.extractedTopics := [] |}.

Definition demo_data : ExercisesData :=
  {| data_exercises :=
       [{| problem := lit "Solve";
           parts := [{| part := lit "a"; part_solution := lit "1" |}] |}] |}.

(** The text [{"a":[1,2]}]. *)
Definition demo_json : jsstring :=
  lit "{" ++ [quote] ++ lit "a" ++ [quote] ++ lit ":[1,2]}".

(** The text [[",]"]]: an array holding the string [,]]. *)
Definition demo_json_comma : jsstring :=
  lit "[" ++ [quote] ++ lit ",]" ++ [quote] ++ lit "]".

(** The text [["```"]]: an array holding the string of three backticks. *)
Definition demo_json_fence : jsstring :=
  lit "[" ++ [quote] ++ fence ++ [quote] ++ lit "]".

(** The text [{"topics":[1]}]. *)
Definition demo_json_numbers : jsstring :=
  lit "{" ++ [quote] ++ lit "topics" ++ [quote] ++ lit ":[1]}".

(** * The rest of the handlers and wrappers *)

(** ** App.tsx: the API key form *)

Module ApiKeyInput.

(** [onApiKeySubmit], which [App] binds to [setApiKey]. *)
Definition onApiKeySubmit (key : jsstring) (st : App.state) : App.state :=
  {| App.apiKey := Some key; App.outline := App.outline st;
     App.topic := App.topic st; App.numChapters := App.numChapters st;
     App.language := App.language st; App.isLoading := App.isLoading st;
     App.error := App.error st |}.

(** [handleSubmit]: [if (key.trim()) { onApiKeySubmit(key.trim()); }] *)
Definition handleSubmit (key : jsstring) (st : App.state) : App.state :=
  if truthy (trim key) then onApiKeySubmit (trim key) st else st.

End ApiKeyInput.

(** ** geminiService.ts: the wrappers that resolve with text *)

(** [generateSectionContent]: the value its promise resolves with. *)
Definition generateSectionContent (r : response) : jsstring :=
  match r with
  | Responds text => text
  | Rejects => lit "Error: Could not generate content."
  end.


(** ** SectionView.tsx: [handleGenerateContent] *)

Definition handleGenerateContent_begin (st : SectionView.state) : SectionView.state :=
  {| SectionView.isOpen := SectionView.isOpen st;
     SectionView.isLoading := true;
     SectionView.isImageLoading := SectionView.isImageLoading st;
     SectionView.isModalOpen := SectionView.isModalOpen st;
     SectionView.focusedIdea := SectionView.focusedIdea st |}.

(** [prevSection => ({ ...prevSection, content })] *)
Definition setContent (content0 : jsstring) : updater :=
  λ l,
    prevSection ←← readSection l ;;
    alloc (ObjSection {| sec_id := sec_id prevSection;
                         sec_title := sec_title prevSection;
                         content := Some content0;
                         images := images prevSection |}).

(** [handleGenerateContent] from its [await] on.  [chapter] and
    [section] are the objects the enclosing views were rendered with;
    [content0] is what [generateSectionContent] resolved with. *)
Definition handleGenerateContent_resume (chapter section : loc) (content0 : jsstring)
    (w : World) (st : SectionView.state) : option (World * SectionView.state) :=
  match readChapter chapter (sto w), readSection section (sto w) with
  | Some (ch, _), Some (sec, _) =>
      w' ← updateSection (chap_id ch) (sec_id sec) (setContent content0) w ;
      Some (w', {| SectionView.isOpen := true;
                   SectionView.isLoading := false;
                   SectionView.isImageLoading := SectionView.isImageLoading st;
                   SectionView.isModalOpen := SectionView.isModalOpen st;
                   SectionView.focusedIdea := SectionView.focusedIdea st |})
  | _, _ => None
  end.

(** ** ChapterView.tsx: [addTopicsAsSections] *)

(** [title => ({ id: crypto.randomUUID(), title, content: null, images: [] })] *)
Definition sectionOfTopic (title : jsstring) : M loc :=
  id ←← randomUUID ;;
  alloc (ObjSection {| sec_id := id; sec_title := title; content := None;
                       images := [] |}).

(** [prevChapter => ({ ...prevChapter,
       sections: [...prevChapter.sections, ...newSections] })] *)
Definition appendSections (newSections : list loc) : updater :=
  λ l,
    prevChapter ←← readChapter l ;;
    alloc (ObjChapter {| chap_id := chap_id prevChapter;
                         chap_title := chap_title prevChapter;
                         sections := sections prevChapter ++ newSections;
                         exerciseSets := exerciseSets prevChapter;
                         solverSets := solverSets prevChapter |}).

(** [addTopicsAsSections(topics)] of the [ChapterView] rendered with
    the chapter object [chapter]. *)
Definition addTopicsAsSections (chapter : loc) (topics : list jsstring)
    (w : World) (st : ChapterView.state) : option (World * ChapterView.state) :=
  match mapM sectionOfTopic topics (sto w) with
  | Some (newSections, σ1) =>
      match readChapter chapter σ1 with
      | Some (ch, _) =>
          w' ← updateChapter (chap_id ch) (appendSections newSections)
                 (mkWorld σ1 (app w)) ;
          Some (w', {| ChapterView.isOpen := ChapterView.isOpen st;
                       ChapterView.isLoading := ChapterView.isLoading st;
                       ChapterView.modal := None;
                       ChapterView.focusedIdea := ChapterView.focusedIdea st;
                       ChapterView.solverText := ChapterView.solverText st;
                       ChapterView.solverImage := ChapterView.solverImage st;
                       ChapterView.extractedTopics := [] |})
      | None => None
      end
  | None => None
  end.

(** ** MarkdownRenderer.tsx: the rendered HTML *)

(** [s.startsWith(p)] and [s.endsWith(p)]. *)
Definition startsWith (p s : jsstring) : bool := starts_with p s.

Definition endsWith (p s : jsstring) : bool := starts_with (reverse p) (reverse s).

(** [s.slice(start, end)]: a negative index counts from the end, and
    both are clamped to the string. *)
Definition slice (start end_ : Z) (s : jsstring) : jsstring :=
  let len := Z.of_nat (length s) in
  let from := if (start <? 0)%Z then Z.max (len + start) 0 else Z.min start len in
  let to := if (end_ <? 0)%Z then Z.max (len + end_) 0 else Z.min end_ len in
  take (Z.to_nat (to - from)) (drop (Z.to_nat from) s).

(** The memoised [htmlContent].  [marked_parse] is [window.marked.parse]
    when the parser is loaded. *)
Definition htmlContent (marked_parse : option (jsstring → jsstring))
    (content0 : jsstring) (inline : bool) : jsstring :=
  match marked_parse with
  | Some parse =>
      let parsed := parse (if truthy content0 then content0 else []) in
      if inline then
        let trimmed := trim parsed in
        if startsWith (lit "<p>") trimmed && endsWith (lit "</p>") trimmed
        then slice 3 (-4) trimmed
        else parsed
      else parsed
  | None =>
      lit "<p>Markdown parser not loaded. Displaying raw content:</p><pre><code>"
      ++ content0 ++ lit "</code></pre>"
  end.

(** * Vocabulary of the further properties *)

(** [ss'] is [ss] with every section of id [Y] replaced by an object
    holding [g] of it, and every other reference kept. *)
Definition sections_mapped (σ σ' : store) (Y : jsstring) (g : SectionObj → SectionObj)
    (ss ss' : list loc) : Prop :=
  Forall2 (λ s s', ∃ sec, objs σ !! s = Some (ObjSection sec) ∧
             if decide (sec_id sec = Y)
             then objs σ' !! s' = Some (ObjSection (g sec))
             else s' = s)
          ss ss'.

(** [cs'] is [cs] with every chapter of id [X] replaced by a reference
    that [P] relates to it, and every other reference kept. *)
Definition chapters_mapped (σ : store) (X : jsstring) (P : Chapter → loc → Prop)
    (cs cs' : list loc) : Prop :=
  Forall2 (λ c c', ∃ ch, objs σ !! c = Some (ObjChapter ch) ∧
             if decide (chap_id ch = X) then P ch c' else c' = c)
          cs cs'.

(** Every chapter of [cs] with the id [X] has allocated sections. *)
Definition target_sections_allocated (σ : store) (cs : list loc) (X : jsstring) : Prop :=
  ∀ c ch, c ∈ cs → objs σ !! c = Some (ObjChapter ch) → chap_id ch = X →
    sections_allocated σ (sections ch).

(** A copy of a section with its content replaced. *)
Definition withContent (sec : SectionObj) (c : option jsstring) : SectionObj :=
  {| sec_id := sec_id sec; sec_title := sec_title sec; content := c;
     images := images sec |}.

(** The state of a [SectionView] after [handleGenerateContent] has
    resumed: [setIsLoading(false)], [setIsOpen(true)]. *)
Definition contentResumed (st : SectionView.state) : SectionView.state :=
  {| SectionView.isOpen := true;
     SectionView.isLoading := false;
     SectionView.isImageLoading := SectionView.isImageLoading st;
     SectionView.isModalOpen := SectionView.isModalOpen st;
     SectionView.focusedIdea := SectionView.focusedIdea st |}.

(** The section [addTopicsAsSections] builds for a topic. *)
Definition topicSection (id title : jsstring) : SectionObj :=
  {| sec_id := id; sec_title := title; content := None; images := [] |}.

(** The state of a [ChapterView] after [addTopicsAsSections]:
    [setExtractedTopics([])], [setModal(null)]. *)
Definition topicsAdded (st : ChapterView.state) : ChapterView.state :=
  {| ChapterView.isOpen := ChapterView.isOpen st;
     ChapterView.isLoading := ChapterView.isLoading st;
     ChapterView.modal := None;
     ChapterView.focusedIdea := ChapterView.focusedIdea st;
     ChapterView.solverText := ChapterView.solverText st;
     ChapterView.solverImage := ChapterView.solverImage st;
     ChapterView.extractedTopics := [] |}.


(** The world after [handleReset], whatever is in the store. *)
Definition afterReset (w : World) : World :=
  {| sto := sto w; app := App.handleReset (app w) |}.

(** The state of a [SectionView] after [handleGenerateImage] has
    resumed: [setIsImageLoading(false)], [setFocusedIdea('')]. *)
Definition imageResumed (st : SectionView.state) : SectionView.state :=
  {| SectionView.isOpen := SectionView.isOpen st;
     SectionView.isLoading := SectionView.isLoading st;
     SectionView.isImageLoading := false;
     SectionView.isModalOpen := SectionView.isModalOpen st;
     SectionView.focusedIdea := [] |}.

(** The state of an [OutlineView] after [handleGenerateExam] has
    resumed. *)
Definition examResumed (st : OutlineView.state) : OutlineView.state :=
  {| OutlineView.isLoading := <[lit "exam" := false]> (OutlineView.isLoading st);
     OutlineView.isModalOpen := false;
     OutlineView.focusedIdea := [] |}.

(** * geminiService.ts: [generateOutline] *)

Section OutlineGeneration.

(** Whether the Number that a JSON number literal denotes is truthy,
    that is neither zero nor [NaN]: the engine's conversion of decimal
    literals to floating point decides it. *)
Variable number_truthy : jsstring → bool.

Definition truthy_jsval (v : jsval) : bool :=
  match v with
  | JUndefined | JNull => false
  | JBool b => b
  | JNum literal => number_truthy literal
  | JStr s => truthy s
  | JArr _ | JObj _ => true
  end.

(** [v.name] for a name that no prototype defines ([title],
    [chapters], [sections]).  [None] stands for the [TypeError] thrown
    on [undefined] and [null]. *)
Definition get_prop (name : jsstring) (v : jsval) : option jsval :=
  match v with
  | JUndefined | JNull => None
  | JObj fields => Some (get_field name fields)
  | JArr _ | JStr _ | JNum _ | JBool _ => Some JUndefined
  end.

(** The own properties that [{ ...v }] copies from an object. *)
Definition own_fields (v : jsval) : list (jsstring * jsval) :=
  match v with
  | JObj fields => fields
  | _ => []
  end.

(** A computation that may throw: [None] is the exception, and the
    store is what it was when it was thrown. *)
Definition T (A : Type) : Type := store → option A * store.

(** The next result of [crypto.randomUUID()], and the store after it. *)
Definition nextUUID (σ : store) : jsstring := uuid_source σ (uuid_count σ).

Definition minted (σ : store) : store :=
  mkStore (objs σ) (uuid_source σ) (S (uuid_count σ)).

(** [Array.prototype.map] with a callback that may throw. *)
Fixpoint mapT {A B} (f : A → T B) (xs : list A) : T (list B) :=
  match xs with
  | [] => λ σ, (Some [], σ)
  | x :: xs' =>
      λ σ, match f x σ with
           | (Some y, σ1) =>
               match mapT f xs' σ1 with
               | (Some ys, σ2) => (Some (y :: ys), σ2)
               | (None, σ2) => (None, σ2)
               end
           | (None, σ1) => (None, σ1)
           end
  end.

(** [secTitle => ({ id: crypto.randomUUID(), title: secTitle,
       content: null, images: [] })] *)
Definition outlineSection (secTitle : jsval) : T jsval :=
  λ σ, (Some (JObj [(lit "id", JStr (nextUUID σ)); (lit "title", secTitle);
                    (lit "content", JNull); (lit "images", JArr [])]),
        minted σ).

(** [chap => ({ id: crypto.randomUUID(), title: chap.title,
       sections: chap.sections.map(...), exerciseSets: [], solverSets: [] })] *)
Definition outlineChapter (chap : jsval) : T jsval :=
  λ σ,
    match get_prop (lit "title") chap with
    | None => (None, minted σ)
    | Some title =>
        match get_prop (lit "sections") chap with
        | Some (JArr secs) =>
            match mapT outlineSection secs (minted σ) with
            | (Some sections', σ2) =>
                (Some (JObj [(lit "id", JStr (nextUUID σ)); (lit "title", title);
                             (lit "sections", JArr sections');
                             (lit "exerciseSets", JArr []);
                             (lit "solverSets", JArr [])]),
                 σ2)
            | (None, σ2) => (None, σ2)
            end
        | _ => (None, minted σ)
        end
    end.

(** [generateOutline]: the value its promise resolves with ([JNull]
    for [null]), and the store after it. *)
Definition generateOutline (r : response) (σ : store) : jsval * store :=
  match r with
  | Responds text =>
      let parsed := tryParseJson text JNull in
      if negb (truthy_jsval parsed) then (JNull, σ)
      else
        match get_prop (lit "title") parsed with
        | Some title =>
            if negb (truthy_jsval title) then (JNull, σ)
            else
              match get_prop (lit "chapters") parsed with
              | Some (JArr chs) =>
                  match mapT outlineChapter chs σ with
                  | (Some chapters', σ') =>
                      (JObj (set_field (lit "examSets") (JArr [])
                               (set_field (lit "chapters") (JArr chapters')
                                  (own_fields parsed))),
                       σ')
                  | (None, σ') => (JNull, σ')
                  end
              | _ => (JNull, σ)
              end
        | None => (JNull, σ)
        end
  | Rejects => (JNull, σ)
  end.

End OutlineGeneration.

(** ** Reading a generated outline *)

(** The store after [n] more identifiers have been minted. *)
Definition advance (n : nat) (σ : store) : store :=
  mkStore (objs σ) (uuid_source σ) (n + uuid_count σ).

(** A chapter of the response that [generateOutline] can turn into a
    chapter: not [null], and with an array of sections. *)
Definition chapter_shaped (chap : jsval) : Prop :=
  ∃ secs, get_prop (lit "sections") chap = Some (JArr secs).

Definition id_of (v : jsval) : jsval :=
  match v with
  | JObj fields => get_field (lit "id") fields
  | _ => JUndefined
  end.

(** The id of a generated chapter followed by those of its sections. *)
Definition chapter_ids (chap : jsval) : list jsval :=
  id_of chap ::
  match chap with
  | JObj fields =>
      match get_field (lit "sections") fields with
      | JArr secs => id_of <$> secs
      | _ => []
      end
  | _ => []
  end.

(** All the ids of a generated outline, in document order. *)
Definition outline_ids (v : jsval) : list jsval :=
  match v with
  | JObj fields =>
      match get_field (lit "chapters") fields with
      | JArr chs => chs ≫= chapter_ids
      | _ => []
      end
  | _ => []
  end.

(** A generated section: fresh id, the given title, no content, no
    images.  A generated chapter: fresh id, the title of the response
    chapter, one generated section per section title, no sets. *)
Definition is_generated_section (secTitle s : jsval) : Prop :=
  ∃ id, s = JObj [(lit "id", JStr id); (lit "title", secTitle);
                  (lit "content", JNull); (lit "images", JArr [])].

Definition is_generated_chapter (chap c : jsval) : Prop :=
  ∃ id title secs secs',
    get_prop (lit "title") chap = Some title ∧
    get_prop (lit "sections") chap = Some (JArr secs) ∧
    c = JObj [(lit "id", JStr id); (lit "title", title);
              (lit "sections", JArr secs');
              (lit "exerciseSets", JArr []); (lit "solverSets", JArr [])] ∧
    Forall2 is_generated_section secs secs'.

(** The text [{"title":"T","chapters":[{"title":"A","sections":["x","y"]},{"title":"B","sections":[]}]}]. *)
Definition demo_outline_json : jsstring :=
  lit "{" ++ [quote] ++ lit "title" ++ [quote] ++ lit ":" ++ [quote] ++ lit "T" ++ [quote]
  ++ lit "," ++ [quote] ++ lit "chapters" ++ [quote] ++ lit ":[{"
  ++ [quote] ++ lit "title" ++ [quote] ++ lit ":" ++ [quote] ++ lit "A" ++ [quote]
  ++ lit "," ++ [quote] ++ lit "sections" ++ [quote] ++ lit ":["
  ++ [quote] ++ lit "x" ++ [quote] ++ lit "," ++ [quote] ++ lit "y" ++ [quote] ++ lit "]},{"
  ++ [quote] ++ lit "title" ++ [quote] ++ lit ":" ++ [quote] ++ lit "B" ++ [quote]
  ++ lit "," ++ [quote] ++ lit "sections" ++ [quote] ++ lit ":[]}]}".

(** * Properties *)

(** ** The store only grows *)

Lemma fresh_unused (σ : store) : objs σ !! fresh (dom (objs σ)) = None.
Proof. apply not_elem_of_dom, is_fresh. Qed.

Lemma alloc_extends (o : object) (σ : store) :
  objs σ ⊆ <[fresh (dom (objs σ)) := o]> (objs σ).
Proof. apply insert_subseteq, fresh_unused. Qed.

Lemma lookup_extends (m m' : gmap loc object) (l : loc) (o : object) :
  m ⊆ m' → m !! l = Some o → m' !! l = Some o.
Proof. intros Hsub Hl. by eapply lookup_weaken. Qed.

Lemma readChapter_at (σ : store) (l : loc) (ch : Chapter) :
  objs σ !! l = Some (ObjChapter ch) → readChapter l σ = Some (ch, σ).
Proof. intros H. unfold readChapter. by rewrite H. Qed.

Lemma readSection_at (σ : store) (l : loc) (sec : SectionObj) :
  objs σ !! l = Some (ObjSection sec) → readSection l σ = Some (sec, σ).
Proof. intros H. unfold readSection. by rewrite H. Qed.

Lemma readOutline_at (σ : store) (l : loc) (o : Outline) :
  objs σ !! l = Some (ObjOutline o) → readOutline l σ = Some (o, σ).
Proof. intros H. unfold readOutline. by rewrite H. Qed.

Lemma bind_Some {A B} (m : M A) (k : A → M B) (σ σ' : store) (a : A) :
  m σ = Some (a, σ') → bind m k σ = k a σ'.
Proof. intros H. unfold bind. by rewrite H. Qed.


(** A callback that succeeds and only allocates, wherever the store has
    grown to, makes [map] succeed; each result element comes from one
    call of the callback on the element at the same index. *)
Lemma mapM_extending {A B} (g : A → M B) (xs : list A) (σ : store) :
  (∀ x σ1, x ∈ xs → objs σ ⊆ objs σ1 →
     ∃ y σ2, g x σ1 = Some (y, σ2) ∧ objs σ1 ⊆ objs σ2) →
  ∃ ys σ', mapM g xs σ = Some (ys, σ') ∧ objs σ ⊆ objs σ' ∧
    Forall2 (λ x y, x ∈ xs ∧
                    ∃ σ1 σ2, objs σ ⊆ objs σ1 ∧ objs σ2 ⊆ objs σ' ∧
                             g x σ1 = Some (y, σ2)) xs ys.
Proof.
  revert σ. induction xs as [|x xs IH]; intros σ Hg.
  - exists [], σ. split_and!; [done|done|constructor].
  - destruct (Hg x σ) as (y & σ1 & Hy & H01); [left|done|].
    destruct (IH σ1) as (ys & σ' & Hys & H1' & Hall).
    { intros z σ2 Hz H12. apply Hg; [by right|]. by etrans. }
    exists (y :: ys), σ'. split_and!.
    + cbn [mapM]. unfold bind at 1. rewrite Hy.
      unfold bind at 1. by rewrite Hys.
    + by etrans.
    + constructor.
      * split; [left|]. by exists σ, σ1.
      * eapply Forall2_impl; [exact Hall|].
        intros z u (Hz & σa & σb & Ha & Hb & Hzu).
        split; [by right|]. exists σa, σb. split_and!; [by etrans|done|done].
Qed.

(** ** What the targeted updates compute *)

(** [xs.map(x => x.id === X ? f(x) : x)] over objects of one kind. *)
Section Matching.

Context {V : Type} (read : loc → M V) (obj : V → object) (key : V → jsstring).
Hypothesis read_at : ∀ σ l v, objs σ !! l = Some (obj v) → read l σ = Some (v, σ).

Lemma mapM_matching (X : jsstring) (f : updater) (xs : list loc) (σ : store) :
  (∀ x, x ∈ xs → ∃ v, objs σ !! x = Some (obj v)) →
  (∀ x v σ1, x ∈ xs → objs σ !! x = Some (obj v) → key v = X →
     objs σ ⊆ objs σ1 → ∃ y σ2, f x σ1 = Some (y, σ2) ∧ objs σ1 ⊆ objs σ2) →
  ∃ ys σ',
    mapM (λ x, v ←← read x ;; if decide (key v = X) then f x else ret x) xs σ
      = Some (ys, σ') ∧
    objs σ ⊆ objs σ' ∧
    Forall2 (λ x y, x ∈ xs ∧ ∃ v, objs σ !! x = Some (obj v) ∧
               if decide (key v = X)
               then ∃ σ1 σ2, objs σ ⊆ objs σ1 ∧ objs σ2 ⊆ objs σ' ∧
                             f x σ1 = Some (y, σ2)
               else y = x)
            xs ys.
Proof using read_at.
  intros Hxs Hf.
  set (g := λ x : loc, v ←← read x ;; if decide (key v = X) then f x else ret x).
  destruct (mapM_extending g xs σ) as (ys & σ' & Hmap & Hsub & Hall).
  { intros x σ1 Hx H1. destruct (Hxs x Hx) as [v Hv]. unfold g.
    rewrite (bind_Some _ _ σ1 σ1 v); [|apply read_at; by eapply lookup_extends].
    destruct (decide (key v = X)) as [Heq|Hne].
    - by eapply Hf.
    - by exists x, σ1. }
  exists ys, σ'. split_and!; [done|done|].
  eapply Forall2_impl; [exact Hall|].
  intros x y (Hx & σ1 & σ2 & H1 & H2 & Hg). split; [done|].
  destruct (Hxs x Hx) as [v Hv]. exists v. split; [done|].
  unfold g in Hg.
  rewrite (bind_Some _ _ σ1 σ1 v) in Hg; [|apply read_at; by eapply lookup_extends].
  destruct (decide (key v = X)) as [Heq|Hne].
  - by exists σ1, σ2.
  - by injection Hg as <- _.
Qed.

End Matching.

Lemma fresh_unused_below (σ σm : store) :
  objs σ ⊆ objs σm → objs σ !! fresh (dom (objs σm)) = None.
Proof.
  intros Hsub. destruct (objs σ !! fresh (dom (objs σm))) as [x|] eqn:E; [|done].
  pose proof (lookup_extends _ _ _ _ Hsub E) as E'.
  by rewrite fresh_unused in E'.
Qed.

Lemma updateChapter_fn_spec (X : jsstring) (f : updater) (lo : loc) (o : Outline)
    (σ : store) :
  objs σ !! lo = Some (ObjOutline o) →
  chapters_allocated σ (chapters o) →
  allocates_on σ (chapters o) X f →
  ∃ lo' cs' σ',
    updateChapter_fn X f (Some lo) σ = Some (Some lo', σ') ∧
    objs σ ⊆ objs σ' ∧
    objs σ !! lo' = None ∧
    objs σ' !! lo' = Some (ObjOutline {| outline_title := outline_title o;
                                         chapters := cs';
                                         examSets := examSets o |}) ∧
    Forall2 (λ c c', c ∈ chapters o ∧ ∃ ch, objs σ !! c = Some (ObjChapter ch) ∧
               if decide (chap_id ch = X)
               then ∃ σ1 σ2, objs σ ⊆ objs σ1 ∧ objs σ2 ⊆ objs σ' ∧
                             f c σ1 = Some (c', σ2)
               else c' = c)
            (chapters o) cs'.
Proof.
  intros Hlo Hcs Hf.
  destruct (mapM_matching readChapter ObjChapter chap_id readChapter_at
              X f (chapters o) σ Hcs Hf) as (cs' & σm & Hmap & Hsub & Hall).
  exists (fresh (dom (objs σm))), cs',
         (mkStore (<[fresh (dom (objs σm)) :=
                       ObjOutline {| outline_title := outline_title o;
                                     chapters := cs';
                                     examSets := examSets o |}]> (objs σm))
                  (uuid_source σm) (uuid_count σm)).
  split_and!.
  - unfold updateChapter_fn.
    rewrite (bind_Some _ _ σ σ o (readOutline_at σ lo o Hlo)).
    by rewrite (bind_Some _ _ σ σm cs' Hmap).
  - cbn. etrans; [exact Hsub|]. apply alloc_extends.
  - by apply fresh_unused_below.
  - cbn. apply lookup_insert_eq.
  - eapply Forall2_impl; [exact Hall|].
    intros c c' (Hc & ch & Hch & Hcase). split; [done|]. exists ch. split; [done|].
    destruct (decide (chap_id ch = X)) as [Heq|Hne]; [|done].
    destruct Hcase as (σ1 & σ2 & H1 & H2 & Hrun).
    exists σ1, σ2. split_and!; [done| |done].
    cbn. etrans; [exact H2|]. apply alloc_extends.
Qed.

Lemma updateSection_fn_spec (Y : jsstring) (f : updater) (c : loc) (ch : Chapter)
    (σ : store) :
  objs σ !! c = Some (ObjChapter ch) →
  sections_allocated σ (sections ch) →
  allocates_on_sections σ (sections ch) Y f →
  ∃ c' ss' σ',
    updateSection_fn Y f c σ = Some (c', σ') ∧
    objs σ ⊆ objs σ' ∧
    objs σ !! c' = None ∧
    objs σ' !! c' = Some (ObjChapter {| chap_id := chap_id ch;
                                        chap_title := chap_title ch;
                                        sections := ss';
                                        exerciseSets := exerciseSets ch;
                                        solverSets := solverSets ch |}) ∧
    Forall2 (λ s s', s ∈ sections ch ∧ ∃ sec, objs σ !! s = Some (ObjSection sec) ∧
               if decide (sec_id sec = Y)
               then ∃ σ1 σ2, objs σ ⊆ objs σ1 ∧ objs σ2 ⊆ objs σ' ∧
                             f s σ1 = Some (s', σ2)
               else s' = s)
            (sections ch) ss'.
Proof.
  intros Hc Hss Hf.
  destruct (mapM_matching readSection ObjSection sec_id readSection_at
              Y f (sections ch) σ Hss Hf) as (ss' & σm & Hmap & Hsub & Hall).
  exists (fresh (dom (objs σm))), ss',
         (mkStore (<[fresh (dom (objs σm)) :=
                       ObjChapter {| chap_id := chap_id ch;
                                     chap_title := chap_title ch;
                                     sections := ss';
                                     exerciseSets := exerciseSets ch;
                                     solverSets := solverSets ch |}]> (objs σm))
                  (uuid_source σm) (uuid_count σm)).
  split_and!.
  - unfold updateSection_fn.
    rewrite (bind_Some _ _ σ σ ch (readChapter_at σ c ch Hc)).
    by rewrite (bind_Some _ _ σ σm ss' Hmap).
  - cbn. etrans; [exact Hsub|]. apply alloc_extends.
  - by apply fresh_unused_below.
  - cbn. apply lookup_insert_eq.
  - eapply Forall2_impl; [exact Hall|].
    intros s s' (Hs & sec & Hsec & Hcase). split; [done|]. exists sec. split; [done|].
    destruct (decide (sec_id sec = Y)) as [Heq|Hne]; [|done].
    destruct Hcase as (σ1 & σ2 & H1 & H2 & Hrun).
    exists σ1, σ2. split_and!; [done| |done].
    cbn. etrans; [exact H2|]. apply alloc_extends.
Qed.

Lemma demo_chapters_allocated :
  chapters_allocated demo_store [2%positive; 3%positive].
Proof.
  intros c Hc. apply list_elem_of_In in Hc.
  destruct Hc as [<-|[<-|[]]]; eexists; reflexivity.
Qed.




(** ** Updates that find nothing to update *)










(** ** Removing a set by id *)

Lemma removeById_all_kept {A} (get_id : A → jsstring) (id : jsstring) (sets : list A) :
  (∀ s, s ∈ sets → get_id s ≠ id) → removeById get_id id sets = sets.
Proof.
  unfold removeById. induction sets as [|x l IH]; intros Hall; [done|].
  rewrite filter_cons_True; [|apply Hall; left].
  f_equal. apply IH. intros s Hs. apply Hall. by right.
Qed.

Lemma removeById_app {A} (get_id : A → jsstring) (id : jsstring) (l1 l2 : list A) :
  removeById get_id id (l1 ++ l2) = removeById get_id id l1 ++ removeById get_id id l2.
Proof. apply filter_app. Qed.

Lemma removeById_count {A} (get_id : A → jsstring) (id : jsstring) (sets : list A) :
  length (removeById get_id id sets) + length (filter (λ s, get_id s = id) sets)
  = length sets.
Proof.
  unfold removeById. induction sets as [|x l IH]; [done|].
  destruct (decide (get_id x = id)) as [Heq|Hne].
  - rewrite filter_cons_False by (intros H; by apply H).
    rewrite filter_cons_True by done. cbn. lia.
  - rewrite filter_cons_True by done.
    rewrite (filter_cons_False (λ s, get_id s = id)) by done. cbn. lia.
Qed.

(** An updater that allocates a copy [g ch] of the chapter [ch] it is
    given: the chapters with the id [X] are replaced by such copies. *)
Lemma updateChapter_pure (X : jsstring) (f : updater) (g : Chapter → Chapter)
    (w : World) (lo : loc) (o : Outline) :
  App.outline (app w) = Some lo →
  objs (sto w) !! lo = Some (ObjOutline o) →
  chapters_allocated (sto w) (chapters o) →
  (∀ σ1 c ch, objs σ1 !! c = Some (ObjChapter ch) →
     f c σ1 = Some (fresh (dom (objs σ1)),
                    mkStore (<[fresh (dom (objs σ1)) := ObjChapter (g ch)]> (objs σ1))
                            (uuid_source σ1) (uuid_count σ1))) →
  ∃ w' lo' cs',
    updateChapter X f w = Some w' ∧
    app w' = App.setOutlineValue (Some lo') (app w) ∧
    objs (sto w) ⊆ objs (sto w') ∧
    objs (sto w') !! lo' = Some (ObjOutline {| outline_title := outline_title o;
                                               chapters := cs';
                                               examSets := examSets o |}) ∧
    Forall2 (λ c c', ∃ ch, objs (sto w) !! c = Some (ObjChapter ch) ∧
               if decide (chap_id ch = X)
               then objs (sto w') !! c' = Some (ObjChapter (g ch))
               else c' = c)
            (chapters o) cs'.
Proof.
  intros Hout Hlo Hcs Hf.
  destruct (updateChapter_fn_spec X f lo o (sto w) Hlo Hcs)
    as (lo' & cs' & σ' & Hrun & Hsub & _ & Hlo' & Hall).
  { intros c ch σ1 Hc Hch Hid H1.
    rewrite (Hf σ1 c ch) by (by eapply lookup_extends).
    eexists _, _. split; [done|]. apply alloc_extends. }
  exists (mkWorld σ' (App.setOutlineValue (Some lo') (app w))), lo', cs'.
  split_and!; try done.
  - unfold updateChapter, setOutline. by rewrite Hout, Hrun.
  - eapply Forall2_impl; [exact Hall|].
    intros c c' (_ & ch & Hch & Hcase). exists ch. split; [done|].
    destruct (decide (chap_id ch = X)) as [Hid|Hne]; [|done].
    destruct Hcase as (σ1 & σ2 & H1 & H2 & Hupd).
    rewrite (Hf σ1 c ch) in Hupd by (by eapply lookup_extends).
    injection Hupd as <- <-.
    eapply lookup_extends; [exact H2|]. cbn. apply lookup_insert_eq.
Qed.

(** The delete handlers filter the sequence of the targeted node. *)
Lemma onDeleteExerciseSet_spec (chapter : loc) (ch0 : Chapter) (id : jsstring)
    (w : World) (lo : loc) (o : Outline) :
  App.outline (app w) = Some lo →
  objs (sto w) !! lo = Some (ObjOutline o) →
  chapters_allocated (sto w) (chapters o) →
  objs (sto w) !! chapter = Some (ObjChapter ch0) →
  ∃ w' lo' cs',
    ChapterView.onDeleteExerciseSet chapter id w = Some w' ∧
    App.outline (app w') = Some lo' ∧
    objs (sto w') !! lo' = Some (ObjOutline {| outline_title := outline_title o;
                                               chapters := cs';
                                               examSets := examSets o |}) ∧
    Forall2 (λ c c', ∃ ch, objs (sto w) !! c = Some (ObjChapter ch) ∧
               if decide (chap_id ch = chap_id ch0)
               then objs (sto w') !! c' =
                      Some (ObjChapter (withExerciseSets ch
                              (removeById eset_id id (exerciseSets ch))))
               else c' = c)
            (chapters o) cs'.
Proof.
  intros Hout Hlo Hcs H0.
  destruct (updateChapter_pure (chap_id ch0) (ChapterView.deleteExerciseSet id)
              (λ ch, withExerciseSets ch (removeById eset_id id (exerciseSets ch)))
              w lo o Hout Hlo Hcs)
    as (w' & lo' & cs' & Hrun & Happ & _ & Hlo' & Hall).
  { intros σ1 c ch Hch. unfold ChapterView.deleteExerciseSet.
    by rewrite (bind_Some _ _ σ1 σ1 ch (readChapter_at σ1 c ch Hch)). }
  exists w', lo', cs'. split_and!; try done.
  - unfold ChapterView.onDeleteExerciseSet.
    by rewrite (readChapter_at (sto w) chapter ch0 H0).
  - by rewrite Happ.
Qed.

Lemma onDeleteSolverSet_spec (chapter : loc) (ch0 : Chapter) (id : jsstring)
    (w : World) (lo : loc) (o : Outline) :
  App.outline (app w) = Some lo →
  objs (sto w) !! lo = Some (ObjOutline o) →
  chapters_allocated (sto w) (chapters o) →
  objs (sto w) !! chapter = Some (ObjChapter ch0) →
  ∃ w' lo' cs',
    ChapterView.onDeleteSolverSet chapter id w = Some w' ∧
    App.outline (app w') = Some lo' ∧
    objs (sto w') !! lo' = Some (ObjOutline {| outline_title := outline_title o;
                                               chapters := cs';
                                               examSets := examSets o |}) ∧
    Forall2 (λ c c', ∃ ch, objs (sto w) !! c = Some (ObjChapter ch) ∧
               if decide (chap_id ch = chap_id ch0)
               then objs (sto w') !! c' =
                      Some (ObjChapter (withSolverSets ch
                              (removeById sset_id id (solverSets ch))))
               else c' = c)
            (chapters o) cs'.
Proof.
  intros Hout Hlo Hcs H0.
  destruct (updateChapter_pure (chap_id ch0) (ChapterView.deleteSolverSet id)
              (λ ch, withSolverSets ch (removeById sset_id id (solverSets ch)))
              w lo o Hout Hlo Hcs)
    as (w' & lo' & cs' & Hrun & Happ & _ & Hlo' & Hall).
  { intros σ1 c ch Hch. unfold ChapterView.deleteSolverSet.
    by rewrite (bind_Some _ _ σ1 σ1 ch (readChapter_at σ1 c ch Hch)). }
  exists w', lo', cs'. split_and!; try done.
  - unfold ChapterView.onDeleteSolverSet.
    by rewrite (readChapter_at (sto w) chapter ch0 H0).
  - by rewrite Happ.
Qed.

Lemma onDeleteExamSet_spec (id : jsstring) (w : World) (lo : loc) (o : Outline) :
  App.outline (app w) = Some lo →
  objs (sto w) !! lo = Some (ObjOutline o) →
  ∃ w' lo',
    OutlineView.onDeleteExamSet id w = Some w' ∧
    App.outline (app w') = Some lo' ∧
    objs (sto w) ⊆ objs (sto w') ∧
    objs (sto w') !! lo' =
      Some (ObjOutline {| outline_title := outline_title o;
                          chapters := chapters o;
                          examSets := removeById eset_id id (examSets o) |}).
Proof.
  intros Hout Hlo. eexists _, _. split_and!.
  - unfold OutlineView.onDeleteExamSet, setOutline. rewrite Hout.
    unfold OutlineView.deleteExamSet.
    rewrite (bind_Some _ _ (sto w) (sto w) o (readOutline_at (sto w) lo o Hlo)).
    reflexivity.
  - reflexivity.
  - cbn. apply alloc_extends.
  - cbn. apply lookup_insert_eq.
Qed.

(** C3, as the code has it.  Removing by id keeps, in their order,
    exactly the elements whose id differs: as many elements go as have
    the id.  Without an element of that id the sequence is unchanged;
    with exactly one, that element alone goes and the length drops by
    one. *)
Theorem removeById_spec {A} (get_id : A → jsstring) (id : jsstring) (sets : list A) :
  sublist (removeById get_id id sets) sets ∧
  (∀ s, s ∈ removeById get_id id sets ↔ s ∈ sets ∧ get_id s ≠ id) ∧
  length (removeById get_id id sets) + length (filter (λ s, get_id s = id) sets)
    = length sets ∧
  ((∀ s, s ∈ sets → get_id s ≠ id) → removeById get_id id sets = sets) ∧
  (∀ l1 x l2, sets = l1 ++ x :: l2 → get_id x = id →
     (∀ s, s ∈ l1 ++ l2 → get_id s ≠ id) →
     removeById get_id id sets = l1 ++ l2 ∧
     S (length (removeById get_id id sets)) = length sets).
Proof.
  split_and!.
  - apply sublist_filter.
  - intros s. unfold removeById. rewrite list_elem_of_filter. tauto.
  - apply removeById_count.
  - apply removeById_all_kept.
  - intros l1 x l2 -> Hx Hrest.
    assert (removeById get_id id (l1 ++ x :: l2) = l1 ++ l2) as Heq.
    { rewrite removeById_app.
      change (x :: l2) with ([x] ++ l2). rewrite removeById_app.
      rewrite (removeById_all_kept get_id id l1)
        by (intros s Hs; apply Hrest, elem_of_app; by left).
      rewrite (removeById_all_kept get_id id l2)
        by (intros s Hs; apply Hrest, elem_of_app; by right).
      unfold removeById at 1. rewrite filter_cons_False by (intros H; by apply H).
      done. }
    split; [done|]. rewrite Heq, !length_app. cbn. lia.
Qed.

Lemma removeById_spec_witness :
  removeById eset_id (lit "e9") [demo_set; demo_set2] = [demo_set; demo_set2] ∧
  removeById eset_id (lit "e1") [demo_set; demo_set2] = [demo_set2] ∧
  S (length (removeById eset_id (lit "e1") [demo_set; demo_set2])) = 2.
Proof.
  destruct (removeById_spec eset_id (lit "e9") [demo_set; demo_set2])
    as (_ & _ & _ & Habsent & _).
  destruct (removeById_spec eset_id (lit "e1") [demo_set; demo_set2])
    as (_ & _ & _ & _ & Hone).
  split.
  - apply Habsent. intros s Hs. apply list_elem_of_In in Hs.
    destruct Hs as [<-|[<-|[]]]; discriminate.
  - apply (Hone [] demo_set [demo_set2]); [reflexivity|reflexivity|].
    intros s Hs. apply list_elem_of_In in Hs. destruct Hs as [<-|[]]. discriminate.
Defined.

(** C3 as stated fails: two sets that share an id are both removed by
    one removal. *)
Lemma removeById_duplicates :
  let sets := [demo_set; demo_set2;
               {| eset_id := lit "e1"; eset_focusedIdea := None; exercises := [] |}] in
  removeById eset_id (lit "e1") sets = [demo_set2] ∧
  length sets - length (removeById eset_id (lit "e1") sets) = 2.
Proof. split; reflexivity. Qed.

(** ** Updates that draw identifiers *)

Lemma store_extends_refl (σ : store) : store_extends σ σ.
Proof. by split_and!. Qed.

Lemma store_extends_trans (σ1 σ2 σ3 : store) :
  store_extends σ1 σ2 → store_extends σ2 σ3 → store_extends σ1 σ3.
Proof.
  intros (Ho & Hs & Hc) (Ho' & Hs' & Hc'). split_and!.
  - by etrans.
  - congruence.
  - lia.
Qed.

(** [map] with a callback that moves the store on, wherever it has
    moved on to, moves it on; each result element comes from one call
    of the callback on the element at the same index. *)
Lemma mapM_store_extends {A B} (g : A → M B) (xs : list A) (σ : store) :
  (∀ x σ1, x ∈ xs → store_extends σ σ1 →
     ∃ y σ2, g x σ1 = Some (y, σ2) ∧ store_extends σ1 σ2) →
  ∃ ys σ', mapM g xs σ = Some (ys, σ') ∧ store_extends σ σ' ∧
    Forall2 (λ x y, x ∈ xs ∧
                    ∃ σ1 σ2, store_extends σ σ1 ∧ store_extends σ2 σ' ∧
                             g x σ1 = Some (y, σ2)) xs ys.
Proof.
  revert σ. induction xs as [|x xs IH]; intros σ Hg.
  - exists [], σ. split_and!; [done|apply store_extends_refl|constructor].
  - destruct (Hg x σ) as (y & σ1 & Hy & H01); [left|apply store_extends_refl|].
    destruct (IH σ1) as (ys & σ' & Hys & H1' & Hall).
    { intros z σ2 Hz H12. apply Hg; [by right|]. by eapply store_extends_trans. }
    exists (y :: ys), σ'. split_and!.
    + cbn [mapM]. unfold bind at 1. rewrite Hy.
      unfold bind at 1. by rewrite Hys.
    + by eapply store_extends_trans.
    + constructor.
      * split; [left|]. exists σ, σ1. split_and!; [apply store_extends_refl|done|done].
      * eapply Forall2_impl; [exact Hall|].
        intros z u (Hz & σa & σb & Ha & Hb & Hzu).
        split; [by right|]. exists σa, σb.
        split_and!; [by eapply store_extends_trans|done|done].
Qed.

(** [updateChapter] with an updater that draws an identifier: every
    chapter with the id [X] is replaced by a newly allocated object
    built with an identifier that [crypto.randomUUID()] returned
    during this update; every other chapter keeps its reference. *)
Lemma updateChapter_fn_minting (X : jsstring) (f : updater)
    (build : Chapter → jsstring → Chapter) (lo : loc) (o : Outline) (σ : store) :
  objs σ !! lo = Some (ObjOutline o) →
  chapters_allocated σ (chapters o) →
  mints_chapter σ (chapters o) X f build →
  ∃ lo' cs' σ',
    updateChapter_fn X f (Some lo) σ = Some (Some lo', σ') ∧
    store_extends σ σ' ∧
    objs σ !! lo' = None ∧
    objs σ' !! lo' = Some (ObjOutline {| outline_title := outline_title o;
                                         chapters := cs';
                                         examSets := examSets o |}) ∧
    Forall2 (λ c c', c ∈ chapters o ∧ ∃ ch, objs σ !! c = Some (ObjChapter ch) ∧
               if decide (chap_id ch = X)
               then ∃ n, uuid_count σ ≤ n < uuid_count σ' ∧
                         objs σ !! c' = None ∧
                         objs σ' !! c' = Some (ObjChapter (build ch (uuid_source σ n)))
               else c' = c)
            (chapters o) cs'.
Proof.
  intros Hlo Hcs Hf.
  set (g := λ c : loc, ch ←← readChapter c ;;
                       if decide (chap_id ch = X) then f c else ret c).
  destruct (mapM_store_extends g (chapters o) σ) as (cs' & σm & Hmap & Hext & Hall).
  { intros c σ1 Hc H1. destruct (Hcs c Hc) as [ch Hch]. unfold g.
    rewrite (bind_Some _ _ σ1 σ1 ch);
      [|apply readChapter_at; eapply lookup_extends; [apply H1|exact Hch]].
    destruct (decide (chap_id ch = X)) as [Heq|Hne].
    - rewrite (Hf c ch σ1 Hc Hch Heq H1). eexists _, _. split; [done|].
      split_and!; cbn; [apply alloc_extends|done|lia].
    - exists c, σ1. split; [done|apply store_extends_refl]. }
  set (σ' := mkStore (<[fresh (dom (objs σm)) :=
                          ObjOutline {| outline_title := outline_title o;
                                        chapters := cs';
                                        examSets := examSets o |}]> (objs σm))
                     (uuid_source σm) (uuid_count σm)).
  assert (store_extends σm σ') as Hm'.
  { split_and!; cbn; [apply alloc_extends|done|lia]. }
  exists (fresh (dom (objs σm))), cs', σ'. split_and!.
  - unfold updateChapter_fn.
    rewrite (bind_Some _ _ σ σ o (readOutline_at σ lo o Hlo)).
    fold g. by rewrite (bind_Some _ _ σ σm cs' Hmap).
  - by eapply store_extends_trans.
  - apply fresh_unused_below, Hext.
  - cbn. apply lookup_insert_eq.
  - eapply Forall2_impl; [exact Hall|].
    intros c c' (Hc & σ1 & σ2 & H1 & H2 & Hg). split; [done|].
    destruct (Hcs c Hc) as [ch Hch]. exists ch. split; [done|].
    unfold g in Hg.
    rewrite (bind_Some _ _ σ1 σ1 ch) in Hg;
      [|apply readChapter_at; eapply lookup_extends; [apply H1|exact Hch]].
    destruct (decide (chap_id ch = X)) as [Heq|Hne].
    + rewrite (Hf c ch σ1 Hc Hch Heq H1) in Hg. injection Hg as <- <-.
      destruct H1 as (H1o & H1s & H1c). destruct H2 as (H2o & H2s & H2c).
      cbn in H2o, H2s, H2c.
      exists (uuid_count σ1). split_and!.
      * done.
      * cbn. lia.
      * by apply fresh_unused_below.
      * rewrite <- H1s. eapply lookup_extends; [apply Hm'|].
        eapply lookup_extends; [exact H2o|]. apply lookup_insert_eq.
    + by injection Hg as <- _.
Qed.

(** ** Appending what a generator resolved with *)

Lemma patch_exercises_run (chapter c : loc) (ch0 ch : Chapter) (idea : jsstring)
    (data : ExercisesData) (σ : store) :
  objs σ !! chapter = Some (ObjChapter ch0) →
  objs σ !! c = Some (ObjChapter ch) →
  ChapterView.patchChapter (ChapterView.exercisesPatch chapter idea) data c σ =
    Some (fresh (dom (objs σ)),
          mkStore (<[fresh (dom (objs σ)) :=
                       ObjChapter (withExerciseSets ch
                         (exerciseSets ch0 ++
                          [newExerciseSet (uuid_source σ (uuid_count σ)) idea data]))]>
                     (objs σ))
                  (uuid_source σ) (S (uuid_count σ))).
Proof.
  intros H0 Hc. unfold ChapterView.patchChapter.
  rewrite (bind_Some _ _ σ σ ch (readChapter_at σ c ch Hc)).
  unfold ChapterView.exercisesPatch.
  unfold bind at 1. unfold bind at 1.
  rewrite (readChapter_at σ chapter ch0 H0). reflexivity.
Qed.

Lemma handleGenerateExercises_resume_spec (chapter : loc) (ch0 : Chapter)
    (idea : jsstring) (data : ExercisesData) (w : World) (st : ChapterView.state)
    (lo : loc) (o : Outline) :
  App.outline (app w) = Some lo →
  objs (sto w) !! lo = Some (ObjOutline o) →
  chapters_allocated (sto w) (chapters o) →
  objs (sto w) !! chapter = Some (ObjChapter ch0) →
  ∃ w' lo' cs',
    ChapterView.handleGenerateExercises_resume chapter idea data w st
      = Some (w', resumed (lit "exercises") st) ∧
    app w' = App.setOutlineValue (Some lo') (app w) ∧
    objs (sto w) ⊆ objs (sto w') ∧
    objs (sto w') !! lo' = Some (ObjOutline {| outline_title := outline_title o;
                                               chapters := cs';
                                               examSets := examSets o |}) ∧
    Forall2 (λ c c', ∃ ch, objs (sto w) !! c = Some (ObjChapter ch) ∧
               if decide (chap_id ch = chap_id ch0)
               then ∃ id, objs (sto w') !! c' =
                      Some (ObjChapter (withExerciseSets ch
                              (exerciseSets ch0 ++ [newExerciseSet id idea data])))
               else c' = c)
            (chapters o) cs'.
Proof.
  intros Hout Hlo Hcs H0.
  destruct (updateChapter_fn_spec (chap_id ch0)
              (ChapterView.patchChapter (ChapterView.exercisesPatch chapter idea) data)
              lo o (sto w) Hlo Hcs)
    as (lo' & cs' & σ' & Hrun & Hsub & _ & Hlo' & Hall).
  { intros c ch σ1 Hc Hch Hid H1.
    rewrite (patch_exercises_run chapter c ch0 ch idea data σ1)
      by (by eapply lookup_extends).
    eexists _, _. split; [done|]. apply alloc_extends. }
  exists (mkWorld σ' (App.setOutlineValue (Some lo') (app w))), lo', cs'.
  split_and!; try done.
  - unfold ChapterView.handleGenerateExercises_resume, ChapterView.handleAction_resume.
    cbn [truthy truthy_data].
    rewrite (readChapter_at (sto w) chapter ch0 H0).
    unfold updateChapter, setOutline. by rewrite Hout, Hrun.
  - eapply Forall2_impl; [exact Hall|].
    intros c c' (_ & ch & Hch & Hcase). exists ch. split; [done|].
    destruct (decide (chap_id ch = chap_id ch0)) as [Hid|Hne]; [|done].
    destruct Hcase as (σ1 & σ2 & H1 & H2 & Hupd).
    rewrite (patch_exercises_run chapter c ch0 ch idea data σ1) in Hupd
      by (by eapply lookup_extends).
    injection Hupd as <- <-. eexists.
    eapply lookup_extends; [exact H2|]. cbn. apply lookup_insert_eq.
Qed.

Lemma handleGenerateExam_resume_spec (idea : jsstring) (data : ExercisesData)
    (w : World) (st : OutlineView.state) (lo : loc) (o : Outline) :
  App.outline (app w) = Some lo →
  objs (sto w) !! lo = Some (ObjOutline o) →
  ∃ w' lo',
    OutlineView.handleGenerateExam_resume idea (ExamExercises data) w st
      = Some (w', {| OutlineView.isLoading :=
                       <[lit "exam" := false]> (OutlineView.isLoading st);
                     OutlineView.isModalOpen := false;
                     OutlineView.focusedIdea := [] |}) ∧
    app w' = App.setOutlineValue (Some lo') (app w) ∧
    uuid_source (sto w') = uuid_source (sto w) ∧
    uuid_count (sto w') = S (uuid_count (sto w)) ∧
    objs (sto w) !! lo' = None ∧
    objs (sto w) ⊆ objs (sto w') ∧
    objs (sto w') !! lo' =
      Some (ObjOutline {| outline_title := outline_title o;
                          chapters := chapters o;
                          examSets := examSets o ++
                            [newExerciseSet (uuid_source (sto w) (uuid_count (sto w)))
                                            idea data] |}).
Proof.
  intros Hout Hlo.
  eexists _, _. split_and!.
  - unfold OutlineView.handleGenerateExam_resume. cbn [truthy_array randomUUID].
    unfold setOutline. cbn [app sto]. rewrite Hout.
    unfold OutlineView.appendExamSet.
    set (σ1 := mkStore (objs (sto w)) (uuid_source (sto w)) (S (uuid_count (sto w)))).
    rewrite (bind_Some _ _ σ1 σ1 o (readOutline_at σ1 lo o Hlo)). reflexivity.
  - reflexivity.
  - reflexivity.
  - reflexivity.
  - cbn. apply fresh_unused.
  - cbn. apply alloc_extends.
  - cbn. apply lookup_insert_eq.
Qed.

(** When the chapter the handler was dispatched with is still the one
    in the outline, the new set is appended to the current sets. *)
Lemma append_to_current_chapter (chapter : loc) (ch0 : Chapter) (idea : jsstring)
    (data : ExercisesData) (w : World) (st : ChapterView.state)
    (lo : loc) (o : Outline) (i : nat) :
  App.outline (app w) = Some lo →
  objs (sto w) !! lo = Some (ObjOutline o) →
  chapters_allocated (sto w) (chapters o) →
  objs (sto w) !! chapter = Some (ObjChapter ch0) →
  chapters o !! i = Some chapter →
  ∃ w' lo' cs' c' ch' id,
    ChapterView.handleGenerateExercises_resume chapter idea data w st
      = Some (w', resumed (lit "exercises") st) ∧
    App.outline (app w') = Some lo' ∧
    objs (sto w') !! lo' = Some (ObjOutline {| outline_title := outline_title o;
                                               chapters := cs';
                                               examSets := examSets o |}) ∧
    cs' !! i = Some c' ∧
    objs (sto w') !! c' = Some (ObjChapter ch') ∧
    exerciseSets ch' = exerciseSets ch0 ++ [newExerciseSet id idea data] ∧
    length (exerciseSets ch') = S (length (exerciseSets ch0)).
Proof.
  intros Hout Hlo Hcs H0 Hi.
  destruct (handleGenerateExercises_resume_spec chapter ch0 idea data w st lo o
              Hout Hlo Hcs H0)
    as (w' & lo' & cs' & Hrun & Happ & _ & Hlo' & Hall).
  destruct (Forall2_lookup_l _ _ _ _ _ Hall Hi) as (c' & Hi' & ch & Hch & Hcase).
  assert (ch = ch0) as -> by congruence.
  rewrite decide_True in Hcase by done. destruct Hcase as [id Hc'].
  exists w', lo', cs', c',
         (withExerciseSets ch0 (exerciseSets ch0 ++ [newExerciseSet id idea data])), id.
  split_and!; try done.
  - by rewrite Happ.
  - cbn. rewrite length_app. cbn. lia.
Qed.

Lemma appendImage_allocates (σ : store) (ss : list loc) (Y : jsstring)
    (img : GeneratedImage) :
  allocates_on_sections σ ss Y (SectionView.appendImage img).
Proof.
  intros s sec σ1 _ Hsec _ Hsub. unfold SectionView.appendImage.
  rewrite (bind_Some _ _ σ1 σ1 sec); [|apply readSection_at; by eapply lookup_extends].
  eexists _, _. split; [reflexivity|]. apply alloc_extends.
Qed.


(** [handleGenerateImage] resuming with image data: in every chapter
    with the id of the chapter it was dispatched in, every section
    with the id of its section gets the new image after the images
    that section has now; everything else keeps its reference. *)
Lemma handleGenerateImage_resume_spec (chapter section : loc) (ch0 : Chapter)
    (sec0 : SectionObj) (idea b : jsstring) (w : World) (st : SectionView.state)
    (lo : loc) (o : Outline) :
  App.outline (app w) = Some lo →
  objs (sto w) !! lo = Some (ObjOutline o) →
  chapters_allocated (sto w) (chapters o) →
  (∀ c ch, c ∈ chapters o → objs (sto w) !! c = Some (ObjChapter ch) →
     chap_id ch = chap_id ch0 → sections_allocated (sto w) (sections ch)) →
  objs (sto w) !! chapter = Some (ObjChapter ch0) →
  objs (sto w) !! section = Some (ObjSection sec0) →
  truthy b = true →
  ∃ w' lo' cs',
    SectionView.handleGenerateImage_resume chapter section idea (Some b) w st
      = Some (w', {| SectionView.isOpen := SectionView.isOpen st;
                     SectionView.isLoading := SectionView.isLoading st;
                     SectionView.isImageLoading := false;
                     SectionView.isModalOpen := SectionView.isModalOpen st;
                     SectionView.focusedIdea := [] |}) ∧
    App.outline (app w') = Some lo' ∧
    objs (sto w) ⊆ objs (sto w') ∧
    objs (sto w') !! lo' = Some (ObjOutline {| outline_title := outline_title o;
                                               chapters := cs';
                                               examSets := examSets o |}) ∧
    Forall2 (λ c c', ∃ ch, objs (sto w) !! c = Some (ObjChapter ch) ∧
               if decide (chap_id ch = chap_id ch0)
               then ∃ ss',
                 objs (sto w') !! c' = Some (ObjChapter (withSections ch ss')) ∧
                 Forall2 (λ s s', ∃ sec, objs (sto w) !! s = Some (ObjSection sec) ∧
                            if decide (sec_id sec = sec_id sec0)
                            then objs (sto w') !! s' =
                                   Some (ObjSection (withImages sec
                                     (images sec ++
                                      [newImage (uuid_source (sto w) (uuid_count (sto w)))
                                                idea b sec0])))
                            else s' = s)
                         (sections ch) ss'
               else c' = c)
            (chapters o) cs'.
Proof.
  intros Hout Hlo Hcs Hss H0 Hs0 Hb.
  set (img := newImage (uuid_source (sto w) (uuid_count (sto w))) idea b sec0).
  set (σ0 := mkStore (objs (sto w)) (uuid_source (sto w)) (S (uuid_count (sto w)))).
  destruct (updateChapter_fn_spec (chap_id ch0)
              (updateSection_fn (sec_id sec0) (SectionView.appendImage img))
              lo o σ0 Hlo Hcs)
    as (lo' & cs' & σ' & Hrun & Hsub & _ & Hlo' & Hall).
  { intros c ch σ1 Hc Hch Hid H1.
    destruct (updateSection_fn_spec (sec_id sec0) (SectionView.appendImage img) c ch σ1)
      as (c' & ss' & σ2 & Hupd & H12 & _).
    - by eapply lookup_extends.
    - intros s Hs. destruct (Hss c ch Hc Hch Hid s Hs) as [sec Hsec].
      exists sec. by eapply lookup_extends.
    - apply appendImage_allocates.
    - by exists c', σ2. }
  exists (mkWorld σ' (App.setOutlineValue (Some lo') (app w))), lo', cs'.
  split_and!; try done.
  - unfold SectionView.handleGenerateImage_resume.
    cbn [truthy truthy_nullable]. rewrite Hb.
    rewrite (readChapter_at (sto w) chapter ch0 H0).
    rewrite (readSection_at (sto w) section sec0 Hs0).
    cbn [randomUUID default from_option id]. fold σ0.
    fold (newImage (uuid_source (sto w) (uuid_count (sto w))) idea b sec0). fold img.
    unfold updateSection, updateChapter, setOutline. cbn [app sto].
    by rewrite Hout, Hrun.
  - eapply Forall2_impl; [exact Hall|].
    intros c c' (Hc & ch & Hch & Hcase). exists ch. split; [done|].
    destruct (decide (chap_id ch = chap_id ch0)) as [Hid|Hne]; [|done].
    destruct Hcase as (σ1 & σ2 & H1 & H2 & Hupd).
    destruct (updateSection_fn_spec (sec_id sec0) (SectionView.appendImage img) c ch σ1)
      as (c'' & ss' & σ2' & Hupd' & H12 & _ & Hc'' & Hsecs).
    { by eapply lookup_extends. }
    { intros s Hs. destruct (Hss c ch Hc Hch Hid s Hs) as [sec Hsec].
      exists sec. by eapply lookup_extends. }
    { apply appendImage_allocates. }
    rewrite Hupd in Hupd'. injection Hupd' as <- <-.
    exists ss'. split.
    + eapply lookup_extends; [exact H2|exact Hc''].
    + eapply Forall2_impl; [exact Hsecs|].
      intros s s' (Hs & sec & Hsec & Hscase).
      destruct (Hss c ch Hc Hch Hid s Hs) as [sec' Hsec'].
      assert (sec' = sec) as ->.
      { pose proof (lookup_extends _ _ _ _ H1 Hsec'). congruence. }
      exists sec. split; [done|].
      destruct (decide (sec_id sec = sec_id sec0)) as [Hsid|Hsne]; [|done].
      destruct Hscase as (σa & σb & Ha & Hb' & Happ).
      unfold SectionView.appendImage in Happ.
      rewrite (bind_Some _ _ σa σa sec) in Happ;
        [|apply readSection_at; by eapply lookup_extends].
      injection Happ as <- <-.
      eapply lookup_extends; [exact H2|].
      eapply lookup_extends; [exact Hb'|]. cbn. apply lookup_insert_eq.
Qed.

Lemma generateExercises_failure :
  generateExercises Rejects = jsval_of_data failureData ∧
  ∀ text, JSON_parse (cleanup text) = None →
    generateExercises (Responds text) = jsval_of_data failureData.
Proof.
  split; [reflexivity|].
  intros text Hfail. unfold generateExercises, tryParseJson. by rewrite Hfail.
Qed.

Lemma exercisesPatch_mints (chapter : loc) (ch0 : Chapter) (idea : jsstring)
    (data : ExercisesData) (σ : store) (cs : list loc) (X : jsstring) :
  objs σ !! chapter = Some (ObjChapter ch0) →
  mints_chapter σ cs X
    (ChapterView.patchChapter (ChapterView.exercisesPatch chapter idea) data)
    (λ ch id, withExerciseSets ch (exerciseSets ch0 ++ [newExerciseSet id idea data])).
Proof.
  intros H0 c ch σ1 _ Hch _ H1.
  apply patch_exercises_run; (eapply lookup_extends; [apply H1|done]).
Qed.

(** [handleGenerateExercises] resuming, with the identifiers it draws:
    every chapter with the id of the chapter object it was dispatched
    with is replaced by a newly allocated copy whose exercise sets are
    those of that chapter object followed by the new set. *)
Lemma handleGenerateExercises_resume_minting (chapter : loc) (ch0 : Chapter)
    (idea : jsstring) (data : ExercisesData) (w : World) (st : ChapterView.state)
    (lo : loc) (o : Outline) :
  App.outline (app w) = Some lo →
  objs (sto w) !! lo = Some (ObjOutline o) →
  chapters_allocated (sto w) (chapters o) →
  objs (sto w) !! chapter = Some (ObjChapter ch0) →
  ∃ w' lo' cs',
    ChapterView.handleGenerateExercises_resume chapter idea data w st
      = Some (w', resumed (lit "exercises") st) ∧
    app w' = App.setOutlineValue (Some lo') (app w) ∧
    store_extends (sto w) (sto w') ∧
    objs (sto w) !! lo' = None ∧
    objs (sto w') !! lo' = Some (ObjOutline {| outline_title := outline_title o;
                                               chapters := cs';
                                               examSets := examSets o |}) ∧
    Forall2 (λ c c', c ∈ chapters o ∧ ∃ ch, objs (sto w) !! c = Some (ObjChapter ch) ∧
               if decide (chap_id ch = chap_id ch0)
               then ∃ n, uuid_count (sto w) ≤ n < uuid_count (sto w') ∧
                      objs (sto w) !! c' = None ∧
                      objs (sto w') !! c' =
                        Some (ObjChapter (withExerciseSets ch
                                (exerciseSets ch0 ++
                                 [newExerciseSet (uuid_source (sto w) n) idea data])))
               else c' = c)
            (chapters o) cs'.
Proof.
  intros Hout Hlo Hcs H0.
  destruct (updateChapter_fn_minting (chap_id ch0)
              (ChapterView.patchChapter (ChapterView.exercisesPatch chapter idea) data)
              (λ ch id, withExerciseSets ch
                          (exerciseSets ch0 ++ [newExerciseSet id idea data]))
              lo o (sto w) Hlo Hcs)
    as (lo' & cs' & σ' & Hrun & Hext & Hfr & Hlo' & Hall).
  { by apply exercisesPatch_mints. }
  exists (mkWorld σ' (App.setOutlineValue (Some lo') (app w))), lo', cs'.
  split_and!; try done.
  unfold ChapterView.handleGenerateExercises_resume, ChapterView.handleAction_resume.
  cbn [truthy truthy_data].
  rewrite (readChapter_at (sto w) chapter ch0 H0).
  unfold updateChapter, setOutline. by rewrite Hout, Hrun.
Qed.

(** C4, as the code has it.  The failure value [{ exercises: [] }] is
    an object, and its [exercises] an array: both are truthy.  When a
    generation resolves with it, a set without exercises is appended
    like any other: its focused idea is the given one and its id a
    result of [crypto.randomUUID()] drawn by this call.  The outline's
    exam sets become the exam sets followed by that set.  When the
    chapter object the handler was dispatched with is still the one
    in the outline under its id, each chapter with that id is replaced
    by a newly allocated copy whose exercise sets are its exercise
    sets followed by that set. *)
Theorem failure_value_appends_empty_set (w : World) (lo : loc) (o : Outline)
    (idea : jsstring) :
  App.outline (app w) = Some lo →
  objs (sto w) !! lo = Some (ObjOutline o) →
  (∀ st, ∃ w' lo' o',
     OutlineView.handleGenerateExam_resume idea (ExamExercises failureData) w st
       = Some (w', {| OutlineView.isLoading :=
                        <[lit "exam" := false]> (OutlineView.isLoading st);
                      OutlineView.isModalOpen := false;
                      OutlineView.focusedIdea := [] |}) ∧
     App.outline (app w') = Some lo' ∧
     objs (sto w') !! lo' = Some (ObjOutline o') ∧
     chapters o' = chapters o ∧
     examSets o' = examSets o ++
       [{| eset_id := uuid_source (sto w) (uuid_count (sto w));
           eset_focusedIdea := Some idea; exercises := [] |}] ∧
     uuid_count (sto w') = S (uuid_count (sto w)) ∧
     length (examSets o') = S (length (examSets o)))
  ∧
  (∀ st chapter ch0,
     chapters_allocated (sto w) (chapters o) →
     objs (sto w) !! chapter = Some (ObjChapter ch0) →
     (∀ c ch, c ∈ chapters o → objs (sto w) !! c = Some (ObjChapter ch) →
        chap_id ch = chap_id ch0 → c = chapter) →
     ∃ w' lo' cs',
       ChapterView.handleGenerateExercises_resume chapter idea failureData w st
         = Some (w', resumed (lit "exercises") st) ∧
       App.outline (app w') = Some lo' ∧
       objs (sto w') !! lo' = Some (ObjOutline {| outline_title := outline_title o;
                                                  chapters := cs';
                                                  examSets := examSets o |}) ∧
       uuid_count (sto w) ≤ uuid_count (sto w') ∧
       Forall2 (λ c c', ∃ ch, objs (sto w) !! c = Some (ObjChapter ch) ∧
                  if decide (chap_id ch = chap_id ch0)
                  then ∃ n, uuid_count (sto w) ≤ n < uuid_count (sto w') ∧
                         objs (sto w) !! c' = None ∧
                         objs (sto w') !! c' =
                           Some (ObjChapter (withExerciseSets ch
                                   (exerciseSets ch ++
                                    [{| eset_id := uuid_source (sto w) n;
                                        eset_focusedIdea := Some idea;
                                        exercises := [] |}])))
                  else c' = c)
               (chapters o) cs').
Proof.
  intros Hout Hlo. split.
  - intros st.
    destruct (handleGenerateExam_resume_spec idea failureData w st lo o Hout Hlo)
      as (w' & lo' & Hrun & Happ & _ & Hcount & _ & _ & Hlo').
    eexists w', lo', _. split_and!; [exact Hrun| |exact Hlo'|done|done|done|].
    + by rewrite Happ.
    + cbn. rewrite length_app. cbn. lia.
  - intros st chapter ch0 Hcs H0 Hcur.
    destruct (handleGenerateExercises_resume_minting chapter ch0 idea failureData w st
                lo o Hout Hlo Hcs H0)
      as (w' & lo' & cs' & Hrun & Happ & Hext & _ & Hlo' & Hall).
    exists w', lo', cs'. split_and!; [done| |done|apply Hext|].
    + by rewrite Happ.
    + eapply Forall2_impl; [exact Hall|].
      intros c c' (Hc & ch & Hch & Hcase). exists ch. split; [done|].
      destruct (decide (chap_id ch = chap_id ch0)) as [Hid|Hne]; [|done].
      assert (ch = ch0) as ->.
      { rewrite (Hcur c ch Hc Hch Hid) in Hch. congruence. }
      exact Hcase.
Qed.

Lemma demo_chapter_current (c : loc) (ch : Chapter) :
  c ∈ [2%positive; 3%positive] → objs demo_store !! c = Some (ObjChapter ch) →
  chap_id ch = lit "c1" → c = 2%positive.
Proof.
  intros Hc Hch Hid. apply list_elem_of_In in Hc.
  destruct Hc as [<-|[<-|[]]]; [done|].
  vm_compute in Hch. injection Hch as <-. discriminate Hid.
Qed.

Lemma failure_value_appends_empty_set_witness :
  (∃ w' lo' o',
     OutlineView.handleGenerateExam_resume (lit "limits") (ExamExercises failureData)
       demo_world OutlineView.initial
       = Some (w', {| OutlineView.isLoading := <[lit "exam" := false]> ∅;
                      OutlineView.isModalOpen := false;
                      OutlineView.focusedIdea := [] |}) ∧
     App.outline (app w') = Some lo' ∧
     objs (sto w') !! lo' = Some (ObjOutline o') ∧
     examSets o' = [{| eset_id := lit "uuid-0"; eset_focusedIdea := Some (lit "limits");
                       exercises := [] |}])
  ∧
  (∃ w' lo' cs',
     ChapterView.handleGenerateExercises_resume 2%positive (lit "limits") failureData
       demo_world ChapterView.initial
       = Some (w', resumed (lit "exercises") ChapterView.initial) ∧
     App.outline (app w') = Some lo' ∧
     objs (sto w') !! lo' = Some (ObjOutline {| outline_title := lit "Algebra";
                                                chapters := cs';
                                                examSets := [] |}) ∧
     Forall2 (λ c c', ∃ ch, objs demo_store !! c = Some (ObjChapter ch) ∧
                if decide (chap_id ch = lit "c1")
                then ∃ n, 0 ≤ n < uuid_count (sto w') ∧
                       objs demo_store !! c' = None ∧
                       objs (sto w') !! c' =
                         Some (ObjChapter (withExerciseSets ch
                                 (exerciseSets ch ++
                                  [{| eset_id := uuid_source demo_store n;
                                      eset_focusedIdea := Some (lit "limits");
                                      exercises := [] |}])))
                else c' = c)
             [2%positive; 3%positive] cs').
Proof.
  destruct (failure_value_appends_empty_set demo_world 4%positive
              {| outline_title := lit "Algebra"; chapters := [2%positive; 3%positive];
                 examSets := [] |} (lit "limits") eq_refl eq_refl) as [Hexam Hchap].
  split.
  - destruct (Hexam OutlineView.initial)
      as (w' & lo' & o' & Hrun & Hout & Hlo' & _ & Hsets & _).
    by exists w', lo', o'.
  - destruct (Hchap ChapterView.initial 2%positive
                {| chap_id := lit "c1"; chap_title := lit "Sets";
                   sections := [1%positive]; exerciseSets := [demo_set];
                   solverSets := [] |} demo_chapters_allocated eq_refl
                demo_chapter_current)
      as (w' & lo' & cs' & Hrun & Hout & Hlo' & _ & Hall).
    by exists w', lo', cs'.
Defined.

(** C4 as stated fails: after the failure value the chapter has one
    exercise set more, and so has the exam. *)
Lemma failure_value_changes_sequences :
  (∃ w' st',
     ChapterView.handleGenerateExercises_resume 2%positive [] failureData
       demo_world ChapterView.initial = Some (w', st') ∧
     exerciseSets <$> chapterById demo_world (lit "c1") = Some [demo_set] ∧
     exerciseSets <$> chapterById w' (lit "c1") =
       Some [demo_set;
             {| eset_id := lit "uuid-0"; eset_focusedIdea := Some [];
                exercises := [] |}])
  ∧
  (∃ w' st',
     OutlineView.handleGenerateExam_resume [] (ExamExercises failureData)
       demo_world OutlineView.initial = Some (w', st') ∧
     examSets <$> currentOutline demo_world = Some [] ∧
     examSets <$> currentOutline w' =
       Some [{| eset_id := lit "uuid-0"; eset_focusedIdea := Some [];
                exercises := [] |}]).
Proof.
  split.
  - eexists _, _. split; [vm_compute; reflexivity|]. split; vm_compute; reflexivity.
  - eexists _, _. split; [vm_compute; reflexivity|]. split; vm_compute; reflexivity.
Qed.

(** ** What a handler leaves behind when it resumes *)

(** C5, as the code has it.  When [handleAction] resumes with a falsy
    result the world is left as it is, the busy flag of the action is
    cleared, the dialog is closed and the focused-idea text is reset to
    the empty string.  [handleSolverSubmit] resuming with the empty
    string moreover resets the solver text and the solver image.
    [handleGenerateExam] resuming with a value without exercises
    leaves the world as it is as well, clears its busy flag, closes
    its dialog and resets its focused-idea text. *)
Theorem falsy_result_resets_inputs :
  (∀ (R : Type) (T : Truthy R) (chapter : loc) (action : jsstring) (result : R)
     (upd : R → M PartialChapter) (w : World) (st : ChapterView.state),
     truthy result = false →
     ChapterView.handleAction_resume chapter action result upd w st
       = Some (w, resumed action st) ∧
     ChapterView.isLoading (resumed action st) !! action = Some false ∧
     ChapterView.focusedIdea (resumed action st) = [])
  ∧
  (∀ (chapter : loc) (solverImage0 : option jsstring) (solverText0 : jsstring)
     (w : World) (st : ChapterView.state),
     ChapterView.handleSolverSubmit_resume chapter solverImage0 solverText0 [] w st
       = Some (w, solverResumed st) ∧
     ChapterView.isLoading (solverResumed st) !! lit "solver" = Some false ∧
     ChapterView.focusedIdea (solverResumed st) = [] ∧
     ChapterView.solverText (solverResumed st) = [] ∧
     ChapterView.solverImage (solverResumed st) = None)
  ∧
  (∀ (idea : jsstring) (w : World) (st : OutlineView.state),
     OutlineView.handleGenerateExam_resume idea ExamNoExercises w st
       = Some (w, examResumed st) ∧
     OutlineView.isLoading (examResumed st) !! lit "exam" = Some false ∧
     OutlineView.isModalOpen (examResumed st) = false ∧
     OutlineView.focusedIdea (examResumed st) = []).
Proof.
  split_and!.
  - intros R T chapter action result upd w st Hfalsy. split_and!.
    + unfold ChapterView.handleAction_resume. by rewrite Hfalsy.
    + cbn. apply lookup_insert_eq.
    + reflexivity.
  - intros chapter img txt w st. split_and!; try reflexivity.
    cbn. apply lookup_insert_eq.
  - intros idea w st. split_and!; try reflexivity.
    cbn. apply lookup_insert_eq.
Qed.

Lemma falsy_result_resets_inputs_witness :
  ChapterView.handleAction_resume 2%positive (lit "solver") ([] : jsstring)
    (ChapterView.solverPatch 2%positive None (lit "x^2 = 4")) demo_world demo_typing
    = Some (demo_world, resumed (lit "solver") demo_typing)
  ∧
  OutlineView.handleGenerateExam_resume (lit "limits") ExamNoExercises demo_world
    (OutlineView.handleGenerateExam_begin OutlineView.initial)
    = Some (demo_world,
            examResumed (OutlineView.handleGenerateExam_begin OutlineView.initial)).
Proof.
  destruct falsy_result_resets_inputs as (Haction & _ & Hexam).
  split.
  - apply Haction. reflexivity.
  - apply Hexam.
Defined.

(** C5 as stated fails: the solver resolves with the empty string, no
    set is appended, and the focused idea, the solver text and the
    solver image the user had entered are gone. *)
Lemma empty_result_loses_inputs :
  ∃ st',
    ChapterView.handleSolverSubmit_resume 2%positive
      (ChapterView.solverImage demo_typing) (ChapterView.solverText demo_typing)
      [] demo_world demo_typing = Some (demo_world, st') ∧
    ChapterView.focusedIdea demo_typing = lit "derivatives" ∧
    ChapterView.focusedIdea st' = [] ∧
    ChapterView.solverText demo_typing = lit "x^2 = 4" ∧
    ChapterView.solverText st' = [] ∧
    ChapterView.solverImage demo_typing = Some (lit "data:image/png;base64,AAAA") ∧
    ChapterView.solverImage st' = None.
Proof. eexists. split_and!; reflexivity. Qed.

(** ** App.tsx *)

(** C7.  When [generateOutline] resolves with [null], the outline state
    is what it was, the loading flag is cleared and the error message
    is set; and dispatching the request had not touched the outline. *)
Theorem outline_null_sets_error (st0 st : App.state) :
  App.outline (App.handleGenerateOutline_begin st0) = App.outline st0 ∧
  App.outline (App.handleGenerateOutline_resume (App.Resolved None) st)
    = App.outline st ∧
  App.isLoading (App.handleGenerateOutline_resume (App.Resolved None) st) = false ∧
  App.error (App.handleGenerateOutline_resume (App.Resolved None) st)
    = Some (lit "Failed to generate outline. Please check your API key and try again.").
Proof.
  split_and!; try reflexivity.
  unfold App.handleGenerateOutline_begin. by destruct (App.dispatches st0).
Qed.

(** C10.  [handleReset] sets the outline to [null], the topic to the
    empty string and the error to [null], and leaves the language, the
    chapter count, the API key and the loading flag as they are. *)
Theorem handleReset_frame (st : App.state) :
  App.handleReset st =
    {| App.apiKey := App.apiKey st;
       App.outline := None;
       App.topic := [];
       App.numChapters := App.numChapters st;
       App.language := App.language st;
       App.isLoading := App.isLoading st;
       App.error := None |}.
Proof.
  unfold App.handleReset, App.setError, App.setTopic, App.setOutlineValue.
  cbn. reflexivity.
Qed.

(** ** The cleanup pass of [tryParseJson] *)

Lemma starts_with_app (p s : jsstring) :
  starts_with p s = true ↔ ∃ post, s = p ++ post.
Proof.
  revert s. induction p as [|a p IH]; intros s.
  - split; [intros _; by exists s|done].
  - destruct s as [|b s]; cbn.
    + split; [done|]. by intros [post ?].
    + rewrite andb_true_iff, N.eqb_eq, IH. split.
      * intros [-> [post ->]]. by exists post.
      * intros [post [= -> ->]]. split; [done|]. by exists post.
Qed.

Lemma starts_with_fence_json (s : jsstring) :
  starts_with fence_json s = true → starts_with fence s = true.
Proof.
  rewrite !starts_with_app. intros [post ->].
  exists (lit "json" ++ post). unfold fence_json. by rewrite <- app_assoc.
Qed.

Lemma stripFences_id (s : jsstring) : ¬ has_fence s → stripFences s = s.
Proof.
  unfold stripFences. induction s as [|c s IH]; intros Hno; [done|].
  assert (starts_with fence (c :: s) = false) as Hf.
  { destruct (starts_with fence (c :: s)) eqn:E; [|done].
    apply starts_with_app in E as [post E]. destruct Hno. by exists [], post. }
  assert (starts_with fence_json (c :: s) = false) as Hfj.
  { destruct (starts_with fence_json (c :: s)) eqn:E; [|done].
    apply starts_with_fence_json in E. congruence. }
  cbn [stripFences_from]. rewrite Hfj, Hf. f_equal. apply IH.
  intros (pre & post & ->). apply Hno. by exists (c :: pre), post.
Qed.

Lemma trim_id (s : jsstring) : untrimmed s → trim s = s.
Proof.
  intros [Hhead Hlast]. unfold trim.
  assert (trimStart s = s) as ->.
  { destruct s as [|c t]; [done|]. cbn. by rewrite (Hhead c t). }
  unfold trimEnd. destruct (reverse s) as [|c t] eqn:E.
  - apply (f_equal reverse) in E. rewrite reverse_involutive in E. by subst.
  - assert (s = reverse t ++ [c]) as Hs.
    { apply (f_equal reverse) in E. rewrite reverse_involutive in E.
      by rewrite reverse_cons in E. }
    cbn [trimStart]. rewrite (Hlast c (reverse t) Hs). by rewrite reverse_cons, <- Hs.
Qed.

Lemma trimStart_head (s : jsstring) (c : N) (t : jsstring) :
  trimStart s = c :: t → is_space c = false.
Proof.
  induction s as [|x s IH]; [done|]. cbn [trimStart].
  destruct (is_space x) eqn:Hx; [done|]. by intros [= <- _].
Qed.

Lemma trimStart_snoc (l : jsstring) (c : N) :
  is_space c = false → ∃ l', trimStart (l ++ [c]) = l' ++ [c].
Proof.
  intros Hc. induction l as [|x l IH].
  - exists []. cbn. by rewrite Hc.
  - change ((x :: l) ++ [c]) with (x :: (l ++ [c])). cbn [trimStart].
    destruct (is_space x); [done|]. by exists (x :: l).
Qed.

Lemma trimStart_space_only (s : jsstring) :
  Forall (λ x, is_space x = true) s → trimStart s = [].
Proof.
  induction 1 as [|x s Hx _ IH]; [done|]. cbn [trimStart]. by rewrite Hx.
Qed.

Lemma trim_untrimmed (s : jsstring) : untrimmed (trim s).
Proof.
  unfold trim, trimEnd. set (u := trimStart s). split.
  - intros c t Heq.
    destruct u as [|x u'] eqn:Hu; [done|].
    pose proof (trimStart_head s x u' Hu) as Hx.
    destruct (trimStart_snoc (reverse u') x Hx) as [l' Hl'].
    rewrite reverse_cons, Hl', reverse_snoc in Heq.
    by injection Heq as <- _.
  - intros c t Heq.
    apply (f_equal reverse) in Heq. rewrite reverse_involutive, reverse_snoc in Heq.
    by eapply trimStart_head.
Qed.

Lemma trimStart_spaces (s : jsstring) :
  ∃ pre, s = pre ++ trimStart s ∧ Forall (λ x, is_space x = true) pre.
Proof.
  induction s as [|c s (pre & Hs & Hpre)]; [by exists []|].
  cbn [trimStart]. destruct (is_space c) eqn:Hc.
  - exists (c :: pre). split; [by rewrite Hs at 1|by constructor].
  - by exists [].
Qed.

Lemma trim_spaces (s : jsstring) :
  ∃ pre post, s = pre ++ trim s ++ post ∧
    Forall (λ x, is_space x = true) pre ∧ Forall (λ x, is_space x = true) post.
Proof.
  destruct (trimStart_spaces s) as (pre & Hs & Hpre).
  destruct (trimStart_spaces (reverse (trimStart s))) as (post & Hr & Hpost).
  exists pre, (reverse post). split_and!; [|done|by apply Forall_reverse].
  unfold trim, trimEnd. rewrite Hs at 1. f_equal.
  apply (f_equal reverse) in Hr. by rewrite reverse_involutive, reverse_app in Hr.
Qed.

Lemma closing_group_Some (s : jsstring) (n : nat) :
  closing_group s = Some n →
  ∃ ws c post, s = ws ++ c :: post ∧ Forall (λ x, is_space x = true) ws ∧
               (c = rbrace ∨ c = rbracket).
Proof.
  revert n. induction s as [|c s IH]; intros n; [done|]. cbn.
  destruct ((c =? rbrace)%N || (c =? rbracket)%N) eqn:Hc.
  - intros _. exists [], c, s. split_and!; [done|constructor|].
    apply orb_true_iff in Hc as [Hc|Hc]; apply N.eqb_eq in Hc; auto.
  - destruct (is_space c) eqn:Hsp; [|done].
    destruct (closing_group s) as [m|] eqn:Hs; [|done].
    intros _. destruct (IH m eq_refl) as (ws & c' & post & -> & Hws & Hc').
    exists (c :: ws), c', post. split_and!; [done|by constructor|done].
Qed.

Lemma stripTrailingCommas_id (s : jsstring) :
  ¬ has_trailing_comma s → stripTrailingCommas s = s.
Proof.
  unfold stripTrailingCommas. induction s as [|c s IH]; intros Hno; [done|].
  assert (stripTrailingCommas_from 0 s = s) as Htail.
  { apply IH. intros (pre & ws & c' & post & -> & Hws & Hc').
    apply Hno. by exists (c :: pre), ws, c', post. }
  cbn [stripTrailingCommas_from]. destruct (c =? comma)%N eqn:Hc.
  - apply N.eqb_eq in Hc as ->.
    destruct (closing_group s) as [n|] eqn:Hg; [|by rewrite Htail].
    destruct (closing_group_Some s n Hg) as (ws & c' & post & -> & Hws & Hc').
    destruct Hno. by exists [], ws, c', post.
  - by rewrite Htail.
Qed.

Lemma has_trailing_comma_infix (pre s post : jsstring) :
  has_trailing_comma s → has_trailing_comma (pre ++ s ++ post).
Proof.
  intros (a & ws & c & b & -> & Hws & Hc).
  exists (pre ++ a), ws, c, (b ++ post). split_and!; [|done|done].
  rewrite <- !app_assoc. cbn. by rewrite <- !app_assoc.
Qed.

(** C6, as the code has it.  On a text that contains no fence marker
    and no comma followed by optional whitespace and a closing brace
    or bracket, the cleanup pass does what [trim] does and nothing
    else: it removes the whitespace at the two ends.  So the text
    leaves the pass as it entered it exactly when it neither starts
    nor ends with whitespace. *)
Theorem cleanup_trims_only (s : jsstring) :
  ¬ has_fence s → ¬ has_trailing_comma s →
  cleanup s = trim s ∧ (cleanup s = s ↔ untrimmed s).
Proof.
  intros Hfence Hcomma.
  assert (cleanup s = trim s) as Heq.
  { unfold cleanup. rewrite (stripFences_id s Hfence).
    apply stripTrailingCommas_id. intros Hc. apply Hcomma.
    destruct (trim_spaces s) as (pre & post & Hs & _). rewrite Hs.
    by apply has_trailing_comma_infix. }
  split; [done|]. rewrite Heq. split.
  - intros Hid. rewrite <- Hid. apply trim_untrimmed.
  - apply trim_id.
Qed.

Lemma has_fence_contains (s : jsstring) : has_fence s → contains_fence s = true.
Proof.
  intros (pre & post & ->). induction pre as [|a pre IH].
  - reflexivity.
  - change (starts_with fence (a :: pre ++ fence ++ post)
            || contains_fence (pre ++ fence ++ post) = true).
    rewrite IH. apply orb_true_r.
Qed.

Lemma closing_group_app (ws : jsstring) (c : N) (post : jsstring) :
  Forall (λ x, is_space x = true) ws → c = rbrace ∨ c = rbracket →
  is_Some (closing_group (ws ++ c :: post)).
Proof.
  intros Hws Hc. induction Hws as [|x ws Hx Hws IH].
  - destruct Hc as [-> | ->]; exists 1; reflexivity.
  - change (is_Some (if (x =? rbrace)%N || (x =? rbracket)%N then Some 1
                     else if is_space x then S <$> closing_group (ws ++ c :: post)
                     else None)).
    destruct ((x =? rbrace)%N || (x =? rbracket)%N); [by eexists|].
    rewrite Hx. destruct IH as [n ->]. by eexists.
Qed.

Lemma has_trailing_comma_contains (s : jsstring) :
  has_trailing_comma s → contains_trailing_comma s = true.
Proof.
  intros (pre & ws & c & post & -> & Hws & Hc). induction pre as [|a pre IH].
  - change (((comma =? comma)%N &&
             bool_decide (is_Some (closing_group (ws ++ c :: post))))
            || contains_trailing_comma (ws ++ c :: post) = true).
    rewrite N.eqb_refl.
    rewrite bool_decide_eq_true_2 by (by apply closing_group_app). reflexivity.
  - change (((a =? comma)%N &&
             bool_decide (is_Some (closing_group (pre ++ comma :: ws ++ c :: post))))
            || contains_trailing_comma (pre ++ comma :: ws ++ c :: post) = true).
    rewrite IH. apply orb_true_r.
Qed.

Lemma untrimmed_ends (s : jsstring) :
  (∀ c, head s = Some c → is_space c = false) →
  (∀ c, last s = Some c → is_space c = false) →
  untrimmed s.
Proof.
  intros Hh Hl. split.
  - intros c t ->. by apply Hh.
  - intros c t ->. apply Hl, last_snoc.
Qed.

Lemma cleanup_trims_only_witness :
  JSON_parse (lit " " ++ demo_json ++ [10%N])
    = Some (JObj [(lit "a", JArr [JNum (lit "1"); JNum (lit "2")])]) ∧
  cleanup (lit " " ++ demo_json ++ [10%N]) = demo_json ∧
  cleanup demo_json = demo_json.
Proof.
  split_and!.
  - reflexivity.
  - destruct (cleanup_trims_only (lit " " ++ demo_json ++ [10%N])) as [Heq _].
    + intros H. apply has_fence_contains in H. discriminate H.
    + intros H. apply has_trailing_comma_contains in H. discriminate H.
    + rewrite Heq. reflexivity.
  - destruct (cleanup_trims_only demo_json) as [_ Hiff].
    + intros H. apply has_fence_contains in H. discriminate H.
    + intros H. apply has_trailing_comma_contains in H. discriminate H.
    + apply Hiff. apply untrimmed_ends; intros c [= <-]; reflexivity.
Defined.

(** C6 as stated fails: valid JSON that ends with a line feed loses
    it; valid JSON with a fence marker inside a string literal loses
    the marker; and valid JSON with a comma before a closing bracket
    inside a string literal loses that comma.  In the last two the
    parsed value changes. *)
Lemma cleanup_alters_valid_json :
  (JSON_parse (lit "{}" ++ [10%N]) = Some (JObj []) ∧
   cleanup (lit "{}" ++ [10%N]) = lit "{}" ∧
   cleanup (lit "{}" ++ [10%N]) ≠ lit "{}" ++ [10%N])
  ∧
  (JSON_parse demo_json_fence = Some (JArr [JStr fence]) ∧
   cleanup demo_json_fence = lit "[" ++ [quote; quote] ++ lit "]" ∧
   cleanup demo_json_fence ≠ demo_json_fence ∧
   JSON_parse (cleanup demo_json_fence) = Some (JArr [JStr []]))
  ∧
  (JSON_parse demo_json_comma = Some (JArr [JStr (lit ",]")]) ∧
   cleanup demo_json_comma = lit "[" ++ [quote] ++ lit "]" ++ [quote] ++ lit "]" ∧
   cleanup demo_json_comma ≠ demo_json_comma ∧
   JSON_parse (cleanup demo_json_comma) = Some (JArr [JStr (lit "]")])).
Proof. split_and!; try reflexivity; discriminate. Qed.

(** ** Topic extraction *)

Lemma extractTopics_on_failure :
  extractTopicsFromText Rejects = JArr [] ∧
  ∀ text, JSON_parse (cleanup text) = None →
    extractTopicsFromText (Responds text) = JArr [].
Proof.
  split; [reflexivity|]. intros text Hfail.
  unfold extractTopicsFromText, tryParseJson. by rewrite Hfail.
Qed.

(** C9 fails on the code.  When the service answers [{}], the parse
    succeeds, the fallback is not used, and the promise resolves with
    [undefined]; when it answers [{"topics":[1]}], with an array of
    numbers. *)
Theorem extractTopics_not_a_string_array :
  JSON_parse (cleanup (lit "{}")) = Some (JObj []) ∧
  extractTopicsFromText (Responds (lit "{}")) = JUndefined ∧
  is_string_array (extractTopicsFromText (Responds (lit "{}"))) = false ∧
  extractTopicsFromText (Responds demo_json_numbers) = JArr [JNum (lit "1")] ∧
  is_string_array (extractTopicsFromText (Responds demo_json_numbers)) = false.
Proof. split_and!; reflexivity. Qed.

(** ** Appending after the tree has changed *)

(** C8 fails on the code for the sets of a chapter: the handlers append
    to the sets of the chapter object they were dispatched with, not to
    those of the current chapter.  An exercise set deleted while the
    generation was pending comes back (the sequence goes from no
    element to two); of two generations dispatched from the same
    rendering the second drops the set the first had appended; and the
    same happens to solver sets. *)
Theorem append_uses_stale_chapter :
  (∃ w1 w2 st2,
     exerciseSets <$> chapterById demo_world (lit "c1") = Some [demo_set] ∧
     ChapterView.onDeleteExerciseSet 2%positive (lit "e1") demo_world = Some w1 ∧
     exerciseSets <$> chapterById w1 (lit "c1") = Some [] ∧
     ChapterView.handleGenerateExercises_resume 2%positive [] demo_data w1
       (ChapterView.handleGenerateExercises_begin ChapterView.initial)
       = Some (w2, st2) ∧
     exerciseSets <$> chapterById w2 (lit "c1")
       = Some [demo_set; newExerciseSet (lit "uuid-0") [] demo_data])
  ∧
  (∃ w1 st1 w2 st2,
     ChapterView.handleGenerateExercises_resume 2%positive [] demo_data demo_world
       (ChapterView.handleGenerateExercises_begin ChapterView.initial)
       = Some (w1, st1) ∧
     exerciseSets <$> chapterById w1 (lit "c1")
       = Some [demo_set; newExerciseSet (lit "uuid-0") [] demo_data] ∧
     ChapterView.handleGenerateExercises_resume 2%positive [] failureData w1 st1
       = Some (w2, st2) ∧
     exerciseSets <$> chapterById w2 (lit "c1")
       = Some [demo_set; newExerciseSet (lit "uuid-1") [] failureData])
  ∧
  (∃ w1 st1 w2 st2,
     ChapterView.handleSolverSubmit_resume 2%positive None (lit "x^2 = 4") (lit "x = 2")
       demo_world (ChapterView.handleSolverSubmit_begin ChapterView.initial)
       = Some (w1, st1) ∧
     solverSets <$> chapterById w1 (lit "c1")
       = Some [{| sset_id := lit "uuid-0";
                  userInput := {| input_type := TextInput;
                                  input_content := lit "x^2 = 4" |};
                  sset_solution := lit "x = 2" |}] ∧
     ChapterView.handleSolverSubmit_resume 2%positive None (lit "y = 1") (lit "1")
       w1 st1 = Some (w2, st2) ∧
     solverSets <$> chapterById w2 (lit "c1")
       = Some [{| sset_id := lit "uuid-1";
                  userInput := {| input_type := TextInput;
                                  input_content := lit "y = 1" |};
                  sset_solution := lit "1" |}]).
Proof.
  split_and!.
  - eexists _, _, _. split_and!; vm_compute; reflexivity.
  - eexists _, _, _, _. split_and!; vm_compute; reflexivity.
  - eexists _, _, _, _. split_and!; vm_compute; reflexivity.
Qed.

(** * Further properties *)

(** ** The API key form *)

(** X1.  [handleSubmit] stores the key without the whitespace at its
    two ends, whenever something is left of it: for every key that is
    not whitespace only, padded or not, the stored key is [trim key],
    which is not empty, neither starts nor ends with whitespace, and
    is the key but for whitespace before and after it.  A key of
    whitespace only changes nothing.  No other field of the session
    state changes. *)
Theorem handleSubmit_stores_trimmed_key (key : jsstring) (st : App.state) :
  (¬ Forall (λ x, is_space x = true) key →
   App.apiKey (ApiKeyInput.handleSubmit key st) = Some (trim key) ∧
   trim key ≠ [] ∧ untrimmed (trim key) ∧
   ∃ pre post, key = pre ++ trim key ++ post ∧
     Forall (λ x, is_space x = true) pre ∧ Forall (λ x, is_space x = true) post) ∧
  (Forall (λ x, is_space x = true) key → ApiKeyInput.handleSubmit key st = st) ∧
  (key ≠ [] → untrimmed key →
   App.apiKey (ApiKeyInput.handleSubmit key st) = Some key) ∧
  App.outline (ApiKeyInput.handleSubmit key st) = App.outline st ∧
  App.topic (ApiKeyInput.handleSubmit key st) = App.topic st ∧
  App.numChapters (ApiKeyInput.handleSubmit key st) = App.numChapters st ∧
  App.language (ApiKeyInput.handleSubmit key st) = App.language st ∧
  App.isLoading (ApiKeyInput.handleSubmit key st) = App.isLoading st ∧
  App.error (ApiKeyInput.handleSubmit key st) = App.error st.
Proof.
  unfold ApiKeyInput.handleSubmit. split_and!.
  - intros Hkey.
    assert (trim key ≠ []) as Hne.
    { intros Hnil. apply Hkey.
      destruct (trim_spaces key) as (pre & post & Hs & Hpre & Hpost).
      rewrite Hs, Hnil. apply Forall_app. split; [done|]. cbn. done. }
    split_and!; [|done|apply trim_untrimmed|apply trim_spaces].
    by destruct (trim key).
  - intros Hsp. unfold trim. by rewrite (trimStart_space_only key Hsp).
  - intros Hne Hun. rewrite (trim_id key Hun). by destruct key.
  - by destruct (truthy (trim key)).
  - by destruct (truthy (trim key)).
  - by destruct (truthy (trim key)).
  - by destruct (truthy (trim key)).
  - by destruct (truthy (trim key)).
  - by destruct (truthy (trim key)).
Qed.

Lemma handleSubmit_stores_trimmed_key_witness :
  ApiKeyInput.handleSubmit (lit "  ") App.initial = App.initial ∧
  App.apiKey (ApiKeyInput.handleSubmit (lit " key  ") App.initial) = Some (lit "key") ∧
  App.apiKey (ApiKeyInput.handleSubmit (lit "key") App.initial) = Some (lit "key").
Proof.
  destruct (handleSubmit_stores_trimmed_key (lit "  ") App.initial)
    as (_ & Hblank & _).
  destruct (handleSubmit_stores_trimmed_key (lit " key  ") App.initial)
    as (Hpadded & _).
  destruct (handleSubmit_stores_trimmed_key (lit "key") App.initial)
    as (_ & _ & Hkey & _).
  split_and!.
  - apply Hblank. repeat constructor.
  - destruct Hpadded as [Hstored _]; [|exact Hstored].
    intros Hall. apply Forall_cons in Hall as [_ Hall].
    apply Forall_cons in Hall as [Hk _]. discriminate Hk.
  - apply Hkey; [discriminate|].
    apply untrimmed_ends; intros c [= <-]; reflexivity.
Defined.

(** ** The outline request of [App] *)

(** X2.  After a reset the topic is empty, so [handleGenerateOutline]
    returns at once: nothing changes until a topic is entered.  A
    second reset changes nothing either. *)
Theorem generate_after_reset_returns (st : App.state) :
  App.dispatches (App.handleReset st) = false ∧
  App.handleGenerateOutline_begin (App.handleReset st) = App.handleReset st ∧
  App.handleReset (App.handleReset st) = App.handleReset st.
Proof.
  assert (App.dispatches (App.handleReset st) = false) as Hd.
  { unfold App.dispatches. cbn. apply andb_false_r. }
  split_and!; [done| |done].
  unfold App.handleGenerateOutline_begin. by rewrite Hd.
Qed.



(** ** The rendered HTML of [MarkdownRenderer] *)

Lemma endsWith_app (p s : jsstring) :
  endsWith p s = true ↔ ∃ pre, s = pre ++ p.
Proof.
  unfold endsWith. rewrite starts_with_app. split.
  - intros [post Hs]. exists (reverse post).
    apply (f_equal reverse) in Hs.
    by rewrite reverse_involutive, reverse_app, reverse_involutive in Hs.
  - intros [pre ->]. exists (reverse pre). by rewrite reverse_app.
Qed.

Lemma slice_middle (a mid b : jsstring) :
  length a = 3 → length b = 4 → slice 3 (-4) (a ++ mid ++ b) = mid.
Proof.
  intros Ha Hb. unfold slice. rewrite !length_app, Ha, Hb.
  change (-4 <? 0)%Z with true. change (3 <? 0)%Z with false. cbn match.
  rewrite Z.min_l by lia. rewrite Z.max_l by lia.
  replace (Z.to_nat 3) with (length a) by (rewrite Ha; reflexivity).
  rewrite drop_app_length.
  replace (Z.to_nat _) with (length mid) by lia.
  by rewrite take_app_length.
Qed.

Lemma paragraph_shape (s : jsstring) :
  startsWith (lit "<p>") s = true → endsWith (lit "</p>") s = true →
  ∃ mid, s = lit "<p>" ++ mid ++ lit "</p>".
Proof.
  intros Hs He. apply starts_with_app in Hs as [a ->].
  apply endsWith_app in He as [c Hc].
  assert (3 + length a = length c + 4) as Hlen.
  { apply (f_equal length) in Hc. rewrite !length_app in Hc. exact Hc. }
  destruct c as [|c1 [|c2 [|c3 mid]]].
  - destruct a as [|x [|y a]]; cbn in Hlen; try lia. discriminate Hc.
  - destruct a as [|x [|y [|z a]]]; cbn in Hlen; try lia. discriminate Hc.
  - destruct a as [|x [|y [|z [|u a]]]]; cbn in Hlen; try lia. discriminate Hc.
  - injection Hc as <- <- <- Ha. exists mid. by rewrite Ha.
Qed.

(** X4.  Inline rendering removes exactly one opening [<p>] and one closing
    [</p>]: when the trimmed output of the parser starts with the one
    and ends with the other, putting them back around the result gives
    the trimmed output; otherwise, and when not inline, the result is
    the parser's output, untrimmed.  Without a parser the raw content
    is shown after the notice that the parser is not loaded, inside
    [<pre><code>]. *)
Theorem htmlContent_inline_strips_paragraph (parse : jsstring → jsstring)
    (content0 : jsstring) :
  (startsWith (lit "<p>") (trim (parse content0))
   && endsWith (lit "</p>") (trim (parse content0)) = true →
   lit "<p>" ++ htmlContent (Some parse) content0 true ++ lit "</p>"
   = trim (parse content0)) ∧
  (startsWith (lit "<p>") (trim (parse content0))
   && endsWith (lit "</p>") (trim (parse content0)) = false →
   htmlContent (Some parse) content0 true = parse content0) ∧
  htmlContent (Some parse) content0 false = parse content0 ∧
  (∀ inline,
     htmlContent None content0 inline
     = lit "<p>Markdown parser not loaded. Displaying raw content:</p><pre><code>"
       ++ content0 ++ lit "</code></pre>").
Proof.
  assert ((if truthy content0 then content0 else []) = content0) as Hc
    by (by destruct content0).
  unfold htmlContent. rewrite Hc. split_and!.
  - intros Hp. rewrite Hp. apply andb_true_iff in Hp as [Hs He].
    destruct (paragraph_shape _ Hs He) as [mid Hmid].
    rewrite Hmid at 1. by rewrite slice_middle.
  - by intros ->.
  - done.
  - done.
Qed.

Lemma htmlContent_inline_strips_paragraph_witness :
  lit "<p>" ++ htmlContent (Some (λ s, lit "<p>" ++ s ++ lit "</p> ")) (lit "x^2") true
  ++ lit "</p>" = lit "<p>x^2</p>"
  ∧ htmlContent (Some (λ s, lit "<h1>" ++ s ++ lit "</h1> ")) (lit "x^2") true
    = lit "<h1>x^2</h1> ".
Proof.
  destruct (htmlContent_inline_strips_paragraph
              (λ s, lit "<p>" ++ s ++ lit "</p> ") (lit "x^2")) as (Hstrip & _).
  destruct (htmlContent_inline_strips_paragraph
              (λ s, lit "<h1>" ++ s ++ lit "</h1> ") (lit "x^2")) as (_ & Hkeep & _).
  split.
  - etrans; [apply Hstrip; reflexivity|reflexivity].
  - apply Hkeep. reflexivity.
Defined.

(** ** What the cleanup pass removes *)

Lemma stripFences_from_sublist (skip : nat) (s : jsstring) :
  sublist (stripFences_from skip s) s.
Proof.
  revert skip. induction s as [|c s IH]; intros skip; [constructor|].
  cbn [stripFences_from]. destruct skip as [|k].
  - destruct (starts_with fence_json (c :: s)); [by apply sublist_cons|].
    destruct (starts_with fence (c :: s)); [by apply sublist_cons|].
    by apply sublist_skip.
  - by apply sublist_cons.
Qed.

Lemma stripTrailingCommas_from_sublist (copy : nat) (s : jsstring) :
  sublist (stripTrailingCommas_from copy s) s.
Proof.
  revert copy. induction s as [|c s IH]; intros copy; [constructor|].
  cbn [stripTrailingCommas_from]. destruct copy as [|k]; [|by apply sublist_skip].
  destruct (c =? comma)%N; [|by apply sublist_skip].
  destruct (closing_group s); [by apply sublist_cons|by apply sublist_skip].
Qed.

Lemma stripTrailingCommas_from_commas (copy : nat) (s : jsstring) :
  filter (λ c, c ≠ comma) (stripTrailingCommas_from copy s) = filter (λ c, c ≠ comma) s.
Proof.
  revert copy. induction s as [|c s IH]; intros copy; [done|].
  cbn [stripTrailingCommas_from]. destruct copy as [|k].
  - destruct (c =? comma)%N eqn:Hc.
    + apply N.eqb_eq in Hc as ->.
      destruct (closing_group s).
      * rewrite (filter_cons_False _ comma) by (intros H; by apply H). apply IH.
      * rewrite !(filter_cons_False _ comma) by (intros H; by apply H). apply IH.
    + rewrite !(filter_cons _ c). by rewrite IH.
  - rewrite !(filter_cons _ c). by rewrite IH.
Qed.

(** X5.  The cleanup pass only deletes: its result is the text with some
    characters left out, in the same order.  What [trim] leaves out is
    whitespace at the two ends, and what the trailing-comma pass
    leaves out are commas. *)
Theorem cleanup_only_deletes (s : jsstring) :
  sublist (cleanup s) s ∧
  length (cleanup s) ≤ length s ∧
  (∃ pre post, s = pre ++ trim s ++ post ∧
     Forall (λ x, is_space x = true) pre ∧ Forall (λ x, is_space x = true) post) ∧
  filter (λ c, c ≠ comma) (stripTrailingCommas s) = filter (λ c, c ≠ comma) s.
Proof.
  assert (sublist (cleanup s) s) as Hsub.
  { unfold cleanup, stripTrailingCommas, stripFences.
    etrans; [apply stripTrailingCommas_from_sublist|].
    etrans; [|apply stripFences_from_sublist].
    destruct (trim_spaces (stripFences_from 0 s)) as (pre & post & Heq & _).
    rewrite Heq at 2. apply sublist_inserts_l, sublist_inserts_r. done. }
  split_and!; [done|by apply sublist_length|apply trim_spaces|].
  apply stripTrailingCommas_from_commas.
Qed.

Lemma has_fence_cons (c : N) (s : jsstring) : ¬ has_fence (c :: s) → ¬ has_fence s.
Proof. intros Hno (pre & post & ->). apply Hno. by exists (c :: pre), post. Qed.

Lemma stripFences_app_sep (s : jsstring) (sep : N) (t : jsstring) :
  ¬ has_fence s → sep ≠ backtick →
  stripFences (s ++ sep :: t) = s ++ sep :: stripFences t.
Proof.
  unfold stripFences. intros Hno Hsep. induction s as [|c s IH].
  - assert (starts_with fence (sep :: t) = false) as Hf.
    { destruct (starts_with fence (sep :: t)) eqn:E; [|done].
      apply starts_with_app in E as [post [= E _]]. by destruct Hsep. }
    assert (starts_with fence_json (sep :: t) = false) as Hfj.
    { destruct (starts_with fence_json (sep :: t)) eqn:E; [|done].
      apply starts_with_fence_json in E. congruence. }
    change ([] ++ sep :: t) with (sep :: t). cbn [stripFences_from].
    by rewrite Hfj, Hf.
  - change ((c :: s) ++ sep :: t) with (c :: (s ++ sep :: t)).
    assert (starts_with fence (c :: (s ++ sep :: t)) = false) as Hf.
    { destruct (starts_with fence (c :: (s ++ sep :: t))) eqn:E; [|done].
      apply starts_with_app in E as [post E].
      destruct s as [|x [|y s]].
      - injection E as _ E _. by destruct Hsep.
      - injection E as _ _ E _. by destruct Hsep.
      - injection E as -> -> -> _. destruct Hno. by exists [], s. }
    assert (starts_with fence_json (c :: (s ++ sep :: t)) = false) as Hfj.
    { destruct (starts_with fence_json (c :: (s ++ sep :: t))) eqn:E; [|done].
      apply starts_with_fence_json in E. congruence. }
    cbn [stripFences_from]. rewrite Hfj, Hf.
    change ((c :: s) ++ sep :: stripFences_from 0 t)
      with (c :: (s ++ sep :: stripFences_from 0 t)).
    f_equal. apply IH. by eapply has_fence_cons.
Qed.

Lemma trim_between_line_feeds (s : jsstring) :
  untrimmed s → trim (10%N :: s ++ [10%N]) = s.
Proof.
  intros Hun. destruct s as [|c t]; [reflexivity|].
  destruct Hun as [Hhead Hlast].
  unfold trim. change (trimStart (10%N :: (c :: t) ++ [10%N]))
    with (trimStart ((c :: t) ++ [10%N])).
  change ((c :: t) ++ [10%N]) with (c :: (t ++ [10%N])). cbn [trimStart].
  rewrite (Hhead c t eq_refl).
  unfold trimEnd. change (c :: (t ++ [10%N])) with ((c :: t) ++ [10%N]).
  rewrite reverse_snoc.
  change (trimStart (10%N :: reverse (c :: t))) with (trimStart (reverse (c :: t))).
  destruct (reverse (c :: t)) as [|x u] eqn:E.
  - apply (f_equal reverse) in E. by rewrite reverse_involutive in E.
  - assert (c :: t = reverse u ++ [x]) as Hs.
    { apply (f_equal reverse) in E. rewrite reverse_involutive in E.
      by rewrite reverse_cons in E. }
    cbn [trimStart]. rewrite (Hlast x (reverse u) Hs). by rewrite reverse_cons.
Qed.

(** X6.  Unwrapping: a text that the cleanup pass would leave alone (no
    fence marker, no comma before a closing bracket, no whitespace at
    its ends), put on lines of its own between an opening fence, with
    or without the [json] tag, and a closing fence, comes out of the
    pass as it was before it was wrapped. *)
Theorem cleanup_unwraps_fenced (s : jsstring) :
  ¬ has_fence s → ¬ has_trailing_comma s → untrimmed s →
  cleanup (fence_json ++ [10%N] ++ s ++ [10%N] ++ fence) = s ∧
  cleanup (fence ++ [10%N] ++ s ++ [10%N] ++ fence) = s.
Proof.
  intros Hfence Hcomma Htrim.
  assert (stripFences (s ++ 10%N :: fence) = s ++ [10%N]) as Hbody.
  { by rewrite stripFences_app_sep. }
  assert (stripFences (fence_json ++ [10%N] ++ s ++ [10%N] ++ fence)
          = 10%N :: s ++ [10%N]) as H1.
  { change (stripFences (fence_json ++ [10%N] ++ s ++ [10%N] ++ fence))
      with (10%N :: stripFences_from 0 (s ++ 10%N :: fence)).
    f_equal. exact Hbody. }
  assert (stripFences (fence ++ [10%N] ++ s ++ [10%N] ++ fence)
          = 10%N :: s ++ [10%N]) as H2.
  { change (stripFences (fence ++ [10%N] ++ s ++ [10%N] ++ fence))
      with (10%N :: stripFences_from 0 (s ++ 10%N :: fence)).
    f_equal. exact Hbody. }
  unfold cleanup. rewrite H1, H2, (trim_between_line_feeds s Htrim).
  split; by apply stripTrailingCommas_id.
Qed.

Lemma cleanup_unwraps_fenced_witness :
  cleanup (fence_json ++ [10%N] ++ demo_json ++ [10%N] ++ fence) = demo_json ∧
  cleanup (fence ++ [10%N] ++ demo_json ++ [10%N] ++ fence) = demo_json.
Proof.
  apply (cleanup_unwraps_fenced demo_json).
  - intros H. apply has_fence_contains in H. discriminate H.
  - intros H. apply has_trailing_comma_contains in H. discriminate H.
  - apply untrimmed_ends; intros c [= <-]; reflexivity.
Defined.

Lemma closing_group_before_comma (t r : jsstring) :
  closing_group t = None → closing_group (t ++ comma :: r) = None.
Proof.
  induction t as [|x t IH]; [done|].
  change ((x :: t) ++ comma :: r) with (x :: (t ++ comma :: r)).
  cbn [closing_group].
  destruct ((x =? rbrace)%N || (x =? rbracket)%N); [done|].
  destruct (is_space x); [|done].
  destruct (closing_group t); [done|]. intros _. by rewrite IH.
Qed.

Lemma closing_group_length (ws : jsstring) (c : N) (post : jsstring) :
  Forall (λ x, is_space x = true) ws → c = rbrace ∨ c = rbracket →
  closing_group (ws ++ c :: post) = Some (S (length ws)).
Proof.
  intros Hws Hc. induction Hws as [|x ws Hx Hws IH].
  - destruct Hc as [-> | ->]; reflexivity.
  - change ((x :: ws) ++ c :: post) with (x :: (ws ++ c :: post)).
    cbn [closing_group].
    assert ((x =? rbrace)%N || (x =? rbracket)%N = false) as ->.
    { apply orb_false_iff. split; apply N.eqb_neq; intros ->; discriminate Hx. }
    by rewrite Hx, IH.
Qed.

Lemma stripTrailingCommas_from_copy (g rest : jsstring) :
  stripTrailingCommas_from (length g) (g ++ rest)
  = g ++ stripTrailingCommas_from 0 rest.
Proof.
  induction g as [|x g IH]; [done|].
  change ((x :: g) ++ rest) with (x :: (g ++ rest)). cbn [length stripTrailingCommas_from].
  by rewrite IH.
Qed.

Lemma stripTrailingCommas_app_comma (a r : jsstring) :
  ¬ has_trailing_comma a →
  stripTrailingCommas_from 0 (a ++ comma :: r)
  = a ++ stripTrailingCommas_from 0 (comma :: r).
Proof.
  induction a as [|x a IH]; intros Hno; [done|].
  assert (¬ has_trailing_comma a) as Hno'.
  { intros (pre & ws & c & post & -> & Hws & Hc).
    apply Hno. by exists (x :: pre), ws, c, post. }
  change ((x :: a) ++ comma :: r) with (x :: (a ++ comma :: r)).
  cbn [stripTrailingCommas_from]. destruct (x =? comma)%N eqn:Hx.
  - apply N.eqb_eq in Hx as ->.
    assert (closing_group a = None) as Hg.
    { destruct (closing_group a) as [n|] eqn:Hg; [|done].
      destruct (closing_group_Some a n Hg) as (ws & c & post & -> & Hws & Hc).
      destruct Hno. by exists [], ws, c, post. }
    rewrite (closing_group_before_comma a r Hg). by rewrite IH.
  - by rewrite IH.
Qed.

(** X7.  Repair: one comma before a closing brace or bracket, with
    whitespace in between or not, is removed and nothing else, when
    the text before it and the text after it hold no such comma. *)
Theorem stripTrailingCommas_repairs (a ws : jsstring) (c : N) (b : jsstring) :
  ¬ has_trailing_comma a → ¬ has_trailing_comma b →
  Forall (λ x, is_space x = true) ws → c = rbrace ∨ c = rbracket →
  stripTrailingCommas (a ++ comma :: ws ++ c :: b) = a ++ ws ++ c :: b.
Proof.
  intros Ha Hb Hws Hc. unfold stripTrailingCommas.
  rewrite (stripTrailingCommas_app_comma a _ Ha).
  cbn [stripTrailingCommas_from]. rewrite N.eqb_refl.
  rewrite (closing_group_length ws c b Hws Hc).
  replace (S (length ws)) with (length (ws ++ [c])) by (rewrite length_app; cbn; lia).
  replace (ws ++ c :: b) with ((ws ++ [c]) ++ b) by (by rewrite <- app_assoc).
  rewrite stripTrailingCommas_from_copy.
  fold (stripTrailingCommas b). rewrite (stripTrailingCommas_id b Hb).
  by rewrite <- app_assoc.
Qed.

(** The text [[1, 2 ,  ]]. *)
Lemma stripTrailingCommas_repairs_witness :
  stripTrailingCommas (lit "[1, 2 " ++ comma :: lit "  " ++ rbracket :: [])
  = lit "[1, 2 " ++ lit "  " ++ [rbracket]
  ∧ JSON_parse (lit "[1, 2 " ++ comma :: lit "  " ++ rbracket :: []) = None
  ∧ JSON_parse (stripTrailingCommas (lit "[1, 2 " ++ comma :: lit "  " ++ rbracket :: []))
    = Some (JArr [JNum (lit "1"); JNum (lit "2")]).
Proof.
  split; [|split; reflexivity].
  apply (stripTrailingCommas_repairs (lit "[1, 2 ") (lit "  ") rbracket []).
  - intros H. apply has_trailing_comma_contains in H. discriminate H.
  - intros H. apply has_trailing_comma_contains in H. discriminate H.
  - repeat constructor.
  - by right.
Defined.

(** ** Updates of sections through [updateSection] *)

(** An updater that allocates a copy [g sec] of the section it is
    given: in the chapters with the id [X], the sections with the id
    [Y] are replaced by such copies. *)
Lemma updateSection_pure (X Y : jsstring) (f : updater) (g : SectionObj → SectionObj)
    (w : World) (lo : loc) (o : Outline) :
  App.outline (app w) = Some lo →
  objs (sto w) !! lo = Some (ObjOutline o) →
  chapters_allocated (sto w) (chapters o) →
  target_sections_allocated (sto w) (chapters o) X →
  (∀ σ1 s sec, objs σ1 !! s = Some (ObjSection sec) →
     f s σ1 = Some (fresh (dom (objs σ1)),
                    mkStore (<[fresh (dom (objs σ1)) := ObjSection (g sec)]> (objs σ1))
                            (uuid_source σ1) (uuid_count σ1))) →
  ∃ w' lo' cs',
    updateSection X Y f w = Some w' ∧
    app w' = App.setOutlineValue (Some lo') (app w) ∧
    objs (sto w) ⊆ objs (sto w') ∧
    objs (sto w') !! lo' = Some (ObjOutline {| outline_title := outline_title o;
                                               chapters := cs';
                                               examSets := examSets o |}) ∧
    chapters_mapped (sto w) X
      (λ ch c', ∃ ss',
         objs (sto w') !! c' = Some (ObjChapter (withSections ch ss')) ∧
         sections_mapped (sto w) (sto w') Y g (sections ch) ss')
      (chapters o) cs'.
Proof.
  intros Hout Hlo Hcs Hss Hf.
  assert (∀ σ1 ss, allocates_on_sections σ1 ss Y f) as Hfa.
  { intros σ1 ss s sec σ2 _ Hsec _ Hsub.
    rewrite (Hf σ2 s sec) by (by eapply lookup_extends).
    eexists _, _. split; [done|]. apply alloc_extends. }
  destruct (updateChapter_fn_spec X (updateSection_fn Y f) lo o (sto w) Hlo Hcs)
    as (lo' & cs' & σ' & Hrun & Hsub & _ & Hlo' & Hall).
  { intros c ch σ1 Hc Hch Hid H1.
    destruct (updateSection_fn_spec Y f c ch σ1) as (c' & ss' & σ2 & Hupd & H12 & _).
    - by eapply lookup_extends.
    - intros s Hs. destruct (Hss c ch Hc Hch Hid s Hs) as [sec Hsec].
      exists sec. by eapply lookup_extends.
    - apply Hfa.
    - by exists c', σ2. }
  exists (mkWorld σ' (App.setOutlineValue (Some lo') (app w))), lo', cs'.
  split_and!; try done.
  - unfold updateSection, updateChapter, setOutline. by rewrite Hout, Hrun.
  - eapply Forall2_impl; [exact Hall|].
    intros c c' (Hc & ch & Hch & Hcase). exists ch. split; [done|].
    destruct (decide (chap_id ch = X)) as [Hid|Hne]; [|done].
    destruct Hcase as (σ1 & σ2 & H1 & H2 & Hupd).
    destruct (updateSection_fn_spec Y f c ch σ1)
      as (c'' & ss' & σ2' & Hupd' & H12 & _ & Hc'' & Hsecs).
    { by eapply lookup_extends. }
    { intros s Hs. destruct (Hss c ch Hc Hch Hid s Hs) as [sec Hsec].
      exists sec. by eapply lookup_extends. }
    { apply Hfa. }
    rewrite Hupd in Hupd'. injection Hupd' as <- <-.
    exists ss'. split.
    + eapply lookup_extends; [exact H2|exact Hc''].
    + eapply Forall2_impl; [exact Hsecs|].
      intros s s' (Hs & sec & Hsec & Hscase).
      destruct (Hss c ch Hc Hch Hid s Hs) as [sec' Hsec'].
      assert (sec' = sec) as ->.
      { pose proof (lookup_extends _ _ _ _ H1 Hsec'). congruence. }
      exists sec. split; [done|].
      destruct (decide (sec_id sec = Y)) as [Hsid|Hsne]; [|done].
      destruct Hscase as (σa & σb & Ha & Hb' & Happ).
      rewrite (Hf σa s sec) in Happ by (by eapply lookup_extends).
      injection Happ as <- <-.
      eapply lookup_extends; [exact H2|].
      eapply lookup_extends; [exact Hb'|]. cbn. apply lookup_insert_eq.
Qed.

Lemma demo_target_sections_allocated (X : jsstring) :
  target_sections_allocated demo_store [2%positive; 3%positive] X.
Proof.
  intros c ch Hc Hch _ s Hs. apply list_elem_of_In in Hc.
  destruct Hc as [<-|[<-|[]]]; vm_compute in Hch; injection Hch as <-.
  - apply list_elem_of_In in Hs. destruct Hs as [<-|[]]. by eexists.
  - by apply list_elem_of_In in Hs.
Qed.

(** X8.  [handleGenerateContent] stores whatever string the call resolved
    with, the error text of a rejected call included, as the content
    of every section with the id of its section in the chapters with
    the id of its chapter, whether or not the section had content
    before; id, title and images of the section stay, and every other
    section and chapter keeps its reference.  The view opens and its
    loading flag is cleared. *)
Theorem handleGenerateContent_sets_content (chapter section : loc) (ch0 : Chapter)
    (sec0 : SectionObj) (r : response) (w : World) (st : SectionView.state)
    (lo : loc) (o : Outline) :
  App.outline (app w) = Some lo →
  objs (sto w) !! lo = Some (ObjOutline o) →
  chapters_allocated (sto w) (chapters o) →
  target_sections_allocated (sto w) (chapters o) (chap_id ch0) →
  objs (sto w) !! chapter = Some (ObjChapter ch0) →
  objs (sto w) !! section = Some (ObjSection sec0) →
  ∃ w' lo' cs',
    handleGenerateContent_resume chapter section (generateSectionContent r) w st
      = Some (w', contentResumed st) ∧
    App.outline (app w') = Some lo' ∧
    objs (sto w) ⊆ objs (sto w') ∧
    objs (sto w') !! lo' = Some (ObjOutline {| outline_title := outline_title o;
                                               chapters := cs';
                                               examSets := examSets o |}) ∧
    chapters_mapped (sto w) (chap_id ch0)
      (λ ch c', ∃ ss',
         objs (sto w') !! c' = Some (ObjChapter (withSections ch ss')) ∧
         sections_mapped (sto w) (sto w') (sec_id sec0)
           (λ sec, withContent sec
                     (Some match r with
                           | Responds text => text
                           | Rejects => lit "Error: Could not generate content."
                           end))
           (sections ch) ss')
      (chapters o) cs'.
Proof.
  intros Hout Hlo Hcs Hss H0 Hs0.
  destruct (updateSection_pure (chap_id ch0) (sec_id sec0)
              (setContent (generateSectionContent r))
              (λ sec, withContent sec (Some (generateSectionContent r)))
              w lo o Hout Hlo Hcs Hss)
    as (w' & lo' & cs' & Hrun & Happ & Hsub & Hlo' & Hall).
  { intros σ1 s sec Hsec. unfold setContent.
    by rewrite (bind_Some _ _ σ1 σ1 sec (readSection_at σ1 s sec Hsec)). }
  exists w', lo', cs'. split_and!; try done.
  - unfold handleGenerateContent_resume.
    rewrite (readChapter_at (sto w) chapter ch0 H0).
    rewrite (readSection_at (sto w) section sec0 Hs0). by rewrite Hrun.
  - by rewrite Happ.
Qed.

Lemma handleGenerateContent_sets_content_witness :
  ∃ w' lo' cs',
    handleGenerateContent_resume 2%positive 1%positive
      (generateSectionContent Rejects) demo_world
      (handleGenerateContent_begin
         {| SectionView.isOpen := false; SectionView.isLoading := false;
            SectionView.isImageLoading := false; SectionView.isModalOpen := false;
            SectionView.focusedIdea := [] |})
      = Some (w', {| SectionView.isOpen := true; SectionView.isLoading := false;
                     SectionView.isImageLoading := false;
                     SectionView.isModalOpen := false;
                     SectionView.focusedIdea := [] |}) ∧
    App.outline (app w') = Some lo' ∧
    objs (sto w') !! lo' = Some (ObjOutline {| outline_title := lit "Algebra";
                                               chapters := cs';
                                               examSets := [] |}).
Proof.
  destruct (handleGenerateContent_sets_content 2%positive 1%positive
              {| chap_id := lit "c1"; chap_title := lit "Sets";
                 sections := [1%positive]; exerciseSets := [demo_set];
                 solverSets := [] |}
              {| sec_id := lit "s1"; sec_title := lit "Unions";
                 content := None; images := [] |}
              Rejects demo_world
              (handleGenerateContent_begin
                 {| SectionView.isOpen := false; SectionView.isLoading := false;
                    SectionView.isImageLoading := false;
                    SectionView.isModalOpen := false;
                    SectionView.focusedIdea := [] |})
              4%positive
              {| outline_title := lit "Algebra"; chapters := [2%positive; 3%positive];
                 examSets := [] |}
              eq_refl eq_refl demo_chapters_allocated
              (demo_target_sections_allocated _) eq_refl eq_refl)
    as (w' & lo' & cs' & Hrun & Hout & _ & Hlo' & _).
  by exists w', lo', cs'.
Defined.

(** ** Adding extracted topics as sections *)

Lemma Forall2_with_elem {A B} (P : A → B → Prop) (l : list A) (k : list B) :
  Forall2 P l k → Forall2 (λ x y, x ∈ l ∧ P x y) l k.
Proof.
  intros Hall. apply Forall2_same_length_lookup. split; [by eapply Forall2_length|].
  intros i x y Hx Hy. split; [by eapply list_elem_of_lookup_2|].
  destruct (Forall2_lookup_l _ _ _ _ _ Hall Hx) as (y' & Hy' & HP).
  by assert (y' = y) as -> by congruence.
Qed.

Lemma mapM_sectionOfTopic (topics : list jsstring) (σ : store) :
  ∃ news σ',
    mapM sectionOfTopic topics σ = Some (news, σ') ∧
    objs σ ⊆ objs σ' ∧
    uuid_source σ' = uuid_source σ ∧
    uuid_count σ' = uuid_count σ + length topics ∧
    length news = length topics ∧
    NoDup news ∧
    ∀ i t, topics !! i = Some t →
      ∃ l, news !! i = Some l ∧ objs σ !! l = None ∧
           objs σ' !! l = Some (ObjSection
             (topicSection (uuid_source σ (uuid_count σ + i)) t)).
Proof.
  revert σ. induction topics as [|t topics IH]; intros σ.
  - exists [], σ. split_and!.
    + done.
    + done.
    + done.
    + cbn. lia.
    + done.
    + constructor.
    + intros i t Ht. by rewrite lookup_nil in Ht.
  - set (l0 := fresh (dom (objs σ))).
    set (σ1 := mkStore (<[l0 := ObjSection (topicSection (uuid_source σ (uuid_count σ)) t)]>
                          (objs σ))
                       (uuid_source σ) (S (uuid_count σ))).
    assert (sectionOfTopic t σ = Some (l0, σ1)) as Hstep by reflexivity.
    assert (objs σ ⊆ objs σ1) as H01 by apply alloc_extends.
    destruct (IH σ1) as (news & σ' & Hmap & H1' & Hsrc & Hcnt & Hlen & Hnd & Hget).
    exists (l0 :: news), σ'. split_and!.
    + cbn [mapM]. rewrite (bind_Some _ _ σ σ1 l0 Hstep).
      by rewrite (bind_Some _ _ σ1 σ' news Hmap).
    + by etrans.
    + by rewrite Hsrc.
    + rewrite Hcnt. cbn. lia.
    + cbn. by rewrite Hlen.
    + constructor; [|done]. intros Hin.
      apply list_elem_of_lookup in Hin as [i Hi].
      assert (i < length topics) as Hlt.
      { rewrite <- Hlen. by eapply lookup_lt_Some. }
      destruct (lookup_lt_is_Some_2 topics i Hlt) as [t' Ht'].
      destruct (Hget i t' Ht') as (l & Hl & Hnone & _).
      assert (l = l0) as -> by congruence.
      cbn in Hnone. by rewrite lookup_insert_eq in Hnone.
    + intros [|i] t' Ht'.
      * injection Ht' as <-. exists l0. split_and!; [done|apply fresh_unused|].
        eapply lookup_extends; [exact H1'|]. cbn.
        rewrite Nat.add_0_r. apply lookup_insert_eq.
      * destruct (Hget i t' Ht') as (l & Hl & Hnone & Hsome).
        exists l. split_and!; [done| |].
        -- destruct (objs σ !! l) eqn:E; [|done].
           pose proof (lookup_extends _ _ _ _ H01 E). congruence.
        -- replace (uuid_count σ + S i) with (uuid_count σ1 + i) by (cbn; lia).
           exact Hsome.
Qed.

(** X9.  [addTopicsAsSections] allocates one new section per topic, in the
    order of the topics, each with a fresh id, the topic as title, no
    content and no images, and appends them after the current sections
    of every chapter with the id of its chapter, whose section
    references stay in place; the other chapters keep their reference.
    The extracted topics are emptied and the dialog is closed. *)
Theorem addTopicsAsSections_appends (chapter : loc) (ch0 : Chapter)
    (topics : list jsstring) (w : World) (st : ChapterView.state)
    (lo : loc) (o : Outline) :
  App.outline (app w) = Some lo →
  objs (sto w) !! lo = Some (ObjOutline o) →
  chapters_allocated (sto w) (chapters o) →
  objs (sto w) !! chapter = Some (ObjChapter ch0) →
  ∃ w' lo' cs' news,
    addTopicsAsSections chapter topics w st = Some (w', topicsAdded st) ∧
    App.outline (app w') = Some lo' ∧
    objs (sto w) ⊆ objs (sto w') ∧
    objs (sto w') !! lo' = Some (ObjOutline {| outline_title := outline_title o;
                                               chapters := cs';
                                               examSets := examSets o |}) ∧
    length news = length topics ∧
    NoDup news ∧
    (∀ i t, topics !! i = Some t →
       ∃ l, news !! i = Some l ∧ objs (sto w) !! l = None ∧
            objs (sto w') !! l = Some (ObjSection
              (topicSection (uuid_source (sto w) (uuid_count (sto w) + i)) t))) ∧
    chapters_mapped (sto w) (chap_id ch0)
      (λ ch c', objs (sto w') !! c'
                = Some (ObjChapter (withSections ch (sections ch ++ news))))
      (chapters o) cs'.
Proof.
  intros Hout Hlo Hcs H0.
  destruct (mapM_sectionOfTopic topics (sto w))
    as (news & σ1 & Hmap & H01 & _ & _ & Hlen & Hnd & Hget).
  destruct (updateChapter_pure (chap_id ch0) (appendSections news)
              (λ ch, withSections ch (sections ch ++ news))
              (mkWorld σ1 (app w)) lo o Hout)
    as (w' & lo' & cs' & Hrun & Happ & Hsub & Hlo' & Hall).
  { by eapply lookup_extends. }
  { intros c Hc. destruct (Hcs c Hc) as [ch Hch]. exists ch. by eapply lookup_extends. }
  { intros σ2 c ch Hch. unfold appendSections.
    by rewrite (bind_Some _ _ σ2 σ2 ch (readChapter_at σ2 c ch Hch)). }
  cbn [sto app] in *.
  exists w', lo', cs', news. split_and!; try done.
  - unfold addTopicsAsSections. rewrite Hmap.
    rewrite (readChapter_at σ1 chapter ch0) by (by eapply lookup_extends).
    by rewrite Hrun.
  - by rewrite Happ.
  - by etrans.
  - intros i t Ht. destruct (Hget i t Ht) as (l & Hl & Hnone & Hsome).
    exists l. split_and!; [done|done|]. by eapply lookup_extends.
  - eapply Forall2_impl; [exact (Forall2_with_elem _ _ _ Hall)|].
    intros c c' (Hc & ch & Hch & Hcase).
    destruct (Hcs c Hc) as [ch' Hch'].
    assert (ch' = ch) as ->.
    { pose proof (lookup_extends _ _ _ _ H01 Hch'). congruence. }
    by exists ch.
Qed.

Lemma addTopicsAsSections_appends_witness :
  ∃ w' lo' cs' news,
    addTopicsAsSections 2%positive [lit "Intersections"; lit "Complements"]
      demo_world demo_typing = Some (w', topicsAdded demo_typing) ∧
    App.outline (app w') = Some lo' ∧
    objs (sto w') !! lo' = Some (ObjOutline {| outline_title := lit "Algebra";
                                               chapters := cs';
                                               examSets := [] |}) ∧
    length news = 2 ∧
    sections <$> chapterById w' (lit "c1") = Some (1%positive :: news).
Proof.
  destruct (addTopicsAsSections_appends 2%positive
              {| chap_id := lit "c1"; chap_title := lit "Sets";
                 sections := [1%positive]; exerciseSets := [demo_set];
                 solverSets := [] |}
              [lit "Intersections"; lit "Complements"] demo_world demo_typing
              4%positive
              {| outline_title := lit "Algebra"; chapters := [2%positive; 3%positive];
                 examSets := [] |}
              eq_refl eq_refl demo_chapters_allocated eq_refl)
    as (w' & lo' & cs' & news & Hrun & Hout & _ & Hlo' & Hlen & _ & _ & Hall).
  exists w', lo', cs', news. split_and!; try done.
  apply Forall2_cons_inv_l in Hall as (c2 & cs2 & (ch & Hch & Hcase) & _ & ->).
  vm_compute in Hch. injection Hch as <-.
  rewrite decide_True in Hcase by done.
  unfold chapterById, currentOutline. rewrite Hout. cbn [mbind option_bind].
  rewrite Hlo'. cbn [mbind option_bind chapters findChapter]. rewrite Hcase.
  by rewrite decide_True by done.
Defined.

(** ** Solver results *)





(** ** Exam sets: appending, deleting *)

Lemma currentOutline_at (w : World) (lo : loc) (o : Outline) :
  App.outline (app w) = Some lo → objs (sto w) !! lo = Some (ObjOutline o) →
  currentOutline w = Some o.
Proof. intros Hout Hlo. unfold currentOutline. rewrite Hout. cbn. by rewrite Hlo. Qed.

Lemma removeById_comm {A} (get_id : A → jsstring) (a b : jsstring) (sets : list A) :
  removeById get_id a (removeById get_id b sets)
  = removeById get_id b (removeById get_id a sets).
Proof.
  unfold removeById. induction sets as [|x l IH]; [done|].
  destruct (decide (get_id x = a)) as [Ha|Ha]; destruct (decide (get_id x = b)) as [Hb|Hb].
  - rewrite !(filter_cons_False _ x) by (intros H; by apply H). exact IH.
  - rewrite (filter_cons_True (λ s, get_id s ≠ b) x) by done.
    rewrite !(filter_cons_False (λ s, get_id s ≠ a) x) by (intros H; by apply H).
    exact IH.
  - rewrite (filter_cons_True (λ s, get_id s ≠ a) x) by done.
    rewrite !(filter_cons_False (λ s, get_id s ≠ b) x) by (intros H; by apply H).
    exact IH.
  - rewrite (filter_cons_True (λ s, get_id s ≠ b) x) by done.
    rewrite !(filter_cons_True (λ s, get_id s ≠ a) x) by done.
    rewrite (filter_cons_True (λ s, get_id s ≠ b) x) by done.
    by rewrite IH.
Qed.

Lemma removeById_idem {A} (get_id : A → jsstring) (a : jsstring) (sets : list A) :
  removeById get_id a (removeById get_id a sets) = removeById get_id a sets.
Proof.
  apply removeById_all_kept. intros s Hs.
  unfold removeById in Hs. apply list_elem_of_filter in Hs. tauto.
Qed.

(** X11.  Appending an exam set and deleting it again: when the id minted
    for the new set is not the id of a set already there, the exam
    sets are those before the append, and the chapter references were
    never touched.  The append keeps the ids distinct if they were. *)
Theorem exam_append_then_delete (idea : jsstring) (data : ExercisesData)
    (w : World) (st : OutlineView.state) (lo : loc) (o : Outline) :
  App.outline (app w) = Some lo →
  objs (sto w) !! lo = Some (ObjOutline o) →
  uuid_source (sto w) (uuid_count (sto w)) ∉ eset_id <$> examSets o →
  ∃ w1 st1 w2 o1 o2,
    OutlineView.handleGenerateExam_resume idea (ExamExercises data) w st
      = Some (w1, st1) ∧
    currentOutline w1 = Some o1 ∧
    examSets o1 = examSets o ++
      [newExerciseSet (uuid_source (sto w) (uuid_count (sto w))) idea data] ∧
    (NoDup (eset_id <$> examSets o) → NoDup (eset_id <$> examSets o1)) ∧
    OutlineView.onDeleteExamSet (uuid_source (sto w) (uuid_count (sto w))) w1 = Some w2 ∧
    currentOutline w2 = Some o2 ∧
    examSets o2 = examSets o ∧
    chapters o2 = chapters o ∧
    outline_title o2 = outline_title o.
Proof.
  intros Hout Hlo Hfresh.
  set (u := uuid_source (sto w) (uuid_count (sto w))) in *.
  destruct (handleGenerateExam_resume_spec idea data w st lo o Hout Hlo)
    as (w1 & lo1 & Hrun1 & Happ1 & _ & _ & _ & _ & Hlo1).
  assert (App.outline (app w1) = Some lo1) as Hout1 by (by rewrite Happ1).
  destruct (onDeleteExamSet_spec u w1 lo1 _ Hout1 Hlo1)
    as (w2 & lo2 & Hrun2 & Hout2 & _ & Hlo2).
  eexists w1, _, w2, _, _. split_and!.
  - exact Hrun1.
  - by apply (currentOutline_at w1 lo1).
  - reflexivity.
  - intros Hnd. cbn. rewrite fmap_app. apply NoDup_app. split_and!; [done| |].
    + intros x Hx Hin. apply list_elem_of_In in Hin. cbn in Hin.
      destruct Hin as [<-|[]]. by apply Hfresh.
    + cbn. apply NoDup_singleton.
  - exact Hrun2.
  - by apply (currentOutline_at w2 lo2).
  - cbn [examSets]. rewrite removeById_app.
    rewrite removeById_all_kept.
    + unfold removeById. rewrite filter_cons_False by (intros H; by apply H).
      by rewrite app_nil_r.
    + intros s Hs Heq. apply Hfresh. rewrite <- Heq. by apply list_elem_of_fmap_2.
  - reflexivity.
  - reflexivity.
Qed.

Lemma exam_append_then_delete_witness :
  ∃ w1 st1 w2,
    OutlineView.handleGenerateExam_resume (lit "limits") (ExamExercises demo_data)
      demo_world OutlineView.initial = Some (w1, st1) ∧
    examSets <$> currentOutline w1
      = Some [newExerciseSet (lit "uuid-0") (lit "limits") demo_data] ∧
    OutlineView.onDeleteExamSet (lit "uuid-0") w1 = Some w2 ∧
    examSets <$> currentOutline w2 = Some [].
Proof.
  destruct (exam_append_then_delete (lit "limits") demo_data demo_world
              OutlineView.initial 4%positive
              {| outline_title := lit "Algebra"; chapters := [2%positive; 3%positive];
                 examSets := [] |} eq_refl eq_refl)
    as (w1 & st1 & w2 & o1 & o2 & Hrun1 & Hcur1 & Hsets1 & _ & Hrun2 & Hcur2 & Hsets2 & _).
  { cbn. apply not_elem_of_nil. }
  exists w1, st1, w2. split_and!; [done| |done|].
  - rewrite Hcur1. cbn. by rewrite Hsets1.
  - rewrite Hcur2. cbn. by rewrite Hsets2.
Defined.

(** X12.  Deleting two exam sets in either order leaves the same exam sets,
    and deleting the same id a second time removes nothing more. *)
Theorem exam_deletes_commute (a b : jsstring) (w : World) (lo : loc) (o : Outline) :
  App.outline (app w) = Some lo →
  objs (sto w) !! lo = Some (ObjOutline o) →
  ∃ wa wab wb wba waa,
    OutlineView.onDeleteExamSet a w = Some wa ∧
    OutlineView.onDeleteExamSet b wa = Some wab ∧
    OutlineView.onDeleteExamSet b w = Some wb ∧
    OutlineView.onDeleteExamSet a wb = Some wba ∧
    OutlineView.onDeleteExamSet a wa = Some waa ∧
    examSets <$> currentOutline wab = examSets <$> currentOutline wba ∧
    examSets <$> currentOutline wab
      = Some (removeById eset_id b (removeById eset_id a (examSets o))) ∧
    examSets <$> currentOutline waa = examSets <$> currentOutline wa ∧
    chapters <$> currentOutline wab = Some (chapters o).
Proof.
  intros Hout Hlo.
  destruct (onDeleteExamSet_spec a w lo o Hout Hlo) as (wa & la & Ha & Hoa & _ & Hla).
  destruct (onDeleteExamSet_spec b wa la _ Hoa Hla) as (wab & lab & Hab & Hoab & _ & Hlab).
  destruct (onDeleteExamSet_spec b w lo o Hout Hlo) as (wb & lb & Hb & Hob & _ & Hlb).
  destruct (onDeleteExamSet_spec a wb lb _ Hob Hlb) as (wba & lba & Hba & Hoba & _ & Hlba).
  destruct (onDeleteExamSet_spec a wa la _ Hoa Hla) as (waa & laa & Haa & Hoaa & _ & Hlaa).
  exists wa, wab, wb, wba, waa. split_and!; try done.
  - rewrite (currentOutline_at wab lab _ Hoab Hlab).
    rewrite (currentOutline_at wba lba _ Hoba Hlba). cbn [fmap option_fmap option_map examSets].
    by rewrite removeById_comm.
  - by rewrite (currentOutline_at wab lab _ Hoab Hlab).
  - rewrite (currentOutline_at waa laa _ Hoaa Hlaa).
    rewrite (currentOutline_at wa la _ Hoa Hla). cbn [fmap option_fmap option_map examSets].
    by rewrite removeById_idem.
  - by rewrite (currentOutline_at wab lab _ Hoab Hlab).
Qed.

Lemma exam_deletes_commute_witness :
  examSets <$> currentOutline demo_exam_world = Some [demo_set; demo_set2; demo_set3] ∧
  ∃ wa wab wb wba,
    OutlineView.onDeleteExamSet (lit "e1") demo_exam_world = Some wa ∧
    OutlineView.onDeleteExamSet (lit "e3") wa = Some wab ∧
    OutlineView.onDeleteExamSet (lit "e3") demo_exam_world = Some wb ∧
    OutlineView.onDeleteExamSet (lit "e1") wb = Some wba ∧
    examSets <$> currentOutline wab = Some [demo_set2] ∧
    examSets <$> currentOutline wba = Some [demo_set2].
Proof.
  split; [reflexivity|].
  destruct (exam_deletes_commute (lit "e1") (lit "e3") demo_exam_world 4%positive
              {| outline_title := lit "Algebra"; chapters := [2%positive; 3%positive];
                 examSets := [demo_set; demo_set2; demo_set3] |} eq_refl eq_refl)
    as (wa & wab & wb & wba & waa & Ha & Hab & Hb & Hba & Haa & Heq & Hsets & Hrest).
  exists wa, wab, wb, wba. split_and!; [done|done|done|done| |].
  - rewrite Hsets. reflexivity.
  - rewrite <- Heq, Hsets. reflexivity.
Defined.

(** ** Images *)

(** X13.  [handleGenerateImage] resuming with [null] or with the empty
    string changes nothing in the world; resuming with image data, it
    appends the new image after the images that each targeted section
    has at that moment, keeping them in place, and every other
    section and chapter keeps its reference.  Either way the loading
    flag and the focused idea are reset. *)
Theorem image_result_appended_or_ignored (chapter section : loc) (idea : jsstring)
    (w : World) (st : SectionView.state) :
  SectionView.handleGenerateImage_resume chapter section idea None w st
    = Some (w, imageResumed st) ∧
  SectionView.handleGenerateImage_resume chapter section idea (Some []) w st
    = Some (w, imageResumed st) ∧
  ∀ (ch0 : Chapter) (sec0 : SectionObj) (b : jsstring) (lo : loc) (o : Outline),
    App.outline (app w) = Some lo →
    objs (sto w) !! lo = Some (ObjOutline o) →
    chapters_allocated (sto w) (chapters o) →
    target_sections_allocated (sto w) (chapters o) (chap_id ch0) →
    objs (sto w) !! chapter = Some (ObjChapter ch0) →
    objs (sto w) !! section = Some (ObjSection sec0) →
    b ≠ [] →
    ∃ w' lo' cs',
      SectionView.handleGenerateImage_resume chapter section idea (Some b) w st
        = Some (w', imageResumed st) ∧
      App.outline (app w') = Some lo' ∧
      objs (sto w) ⊆ objs (sto w') ∧
      objs (sto w') !! lo' = Some (ObjOutline {| outline_title := outline_title o;
                                                 chapters := cs';
                                                 examSets := examSets o |}) ∧
      chapters_mapped (sto w) (chap_id ch0)
        (λ ch c', ∃ ss',
           objs (sto w') !! c' = Some (ObjChapter (withSections ch ss')) ∧
           sections_mapped (sto w) (sto w') (sec_id sec0)
             (λ sec, withImages sec
                       (images sec ++
                        [{| img_id := uuid_source (sto w) (uuid_count (sto w));
                            base64 := lit "data:image/jpeg;base64," ++ b;
                            prompt := match idea with
                                      | [] => sec_title sec0
                                      | _ :: _ => idea
                                      end |}]))
             (sections ch) ss')
        (chapters o) cs'.
Proof.
  split_and!; [reflexivity|reflexivity|].
  intros ch0 sec0 b lo o Hout Hlo Hcs Hss H0 Hs0 Hb.
  destruct (handleGenerateImage_resume_spec chapter section ch0 sec0 idea b w st lo o
              Hout Hlo Hcs Hss H0 Hs0)
    as (w' & lo' & cs' & Hrun & Hout' & Hsub & Hlo' & Hall).
  { by destruct b. }
  exists w', lo', cs'. split_and!; try done.
  eapply Forall2_impl; [exact Hall|].
  intros c c' (ch & Hch & Hcase). exists ch. split; [done|].
  destruct (decide (chap_id ch = chap_id ch0)); [|done].
  destruct Hcase as (ss' & Hc' & Hsecs). exists ss'. split; [done|].
  eapply Forall2_impl; [exact Hsecs|].
  intros s s' (sec & Hsec & Hscase). exists sec. split; [done|].
  destruct (decide (sec_id sec = sec_id sec0)); [|done].
  rewrite Hscase. unfold newImage. by destruct idea.
Qed.

Lemma image_result_appended_or_ignored_witness :
  ∃ w' lo' cs',
    SectionView.handleGenerateImage_resume 2%positive 1%positive (lit "Venn")
      (Some (lit "AAAA")) demo_world
      {| SectionView.isOpen := true; SectionView.isLoading := false;
         SectionView.isImageLoading := true; SectionView.isModalOpen := false;
         SectionView.focusedIdea := lit "Venn" |}
      = Some (w', {| SectionView.isOpen := true; SectionView.isLoading := false;
                     SectionView.isImageLoading := false;
                     SectionView.isModalOpen := false;
                     SectionView.focusedIdea := [] |}) ∧
    App.outline (app w') = Some lo' ∧
    objs (sto w') !! lo' = Some (ObjOutline {| outline_title := lit "Algebra";
                                               chapters := cs';
                                               examSets := [] |}).
Proof.
  destruct (image_result_appended_or_ignored 2%positive 1%positive (lit "Venn")
              demo_world
              {| SectionView.isOpen := true; SectionView.isLoading := false;
                 SectionView.isImageLoading := true; SectionView.isModalOpen := false;
                 SectionView.focusedIdea := lit "Venn" |}) as (_ & _ & Happend).
  destruct (Happend
              {| chap_id := lit "c1"; chap_title := lit "Sets";
                 sections := [1%positive]; exerciseSets := [demo_set];
                 solverSets := [] |}
              {| sec_id := lit "s1"; sec_title := lit "Unions";
                 content := None; images := [] |}
              (lit "AAAA") 4%positive
              {| outline_title := lit "Algebra"; chapters := [2%positive; 3%positive];
                 examSets := [] |}
              eq_refl eq_refl demo_chapters_allocated
              (demo_target_sections_allocated _) eq_refl eq_refl)
    as (w' & lo' & cs' & Hrun & Hout & _ & Hlo' & _).
  { discriminate. }
  by exists w', lo', cs'.
Defined.

(** ** Results that arrive after a reset *)

(** X14.  A generation result or a deletion that arrives after the
    outline has been reset, when the views it was requested from are
    gone, finds the outline state [null] and leaves it [null], and no
    object is allocated: the world is as the reset left it, but for
    the identifier that [handleGenerateExam] and [handleGenerateImage]
    draw before they look at the outline.  ([addTopicsAsSections]
    allocates its sections before it looks at the outline; they stay
    unreferenced.)  Only the world is spoken of: the state of the
    views is gone with them. *)
Theorem late_results_after_reset (w : World) (chapter section : loc)
    (ch0 : Chapter) (sec0 : SectionObj) :
  objs (sto w) !! chapter = Some (ObjChapter ch0) →
  objs (sto w) !! section = Some (ObjSection sec0) →
  (∀ idea data st,
     fst <$> ChapterView.handleGenerateExercises_resume chapter idea data
               (afterReset w) st
     = Some (afterReset w)) ∧
  (∀ img txt solution st,
     fst <$> ChapterView.handleSolverSubmit_resume chapter img txt solution
               (afterReset w) st
     = Some (afterReset w)) ∧
  (∀ content0 st,
     fst <$> handleGenerateContent_resume chapter section content0 (afterReset w) st
     = Some (afterReset w)) ∧
  (∀ id, ChapterView.onDeleteExerciseSet chapter id (afterReset w) = Some (afterReset w)) ∧
  (∀ id, ChapterView.onDeleteSolverSet chapter id (afterReset w) = Some (afterReset w)) ∧
  (∀ id, OutlineView.onDeleteExamSet id (afterReset w) = Some (afterReset w)) ∧
  (∀ idea data st, ∃ w',
     fst <$> OutlineView.handleGenerateExam_resume idea data (afterReset w) st
     = Some w' ∧
     App.outline (app w') = None ∧ objs (sto w') = objs (sto w)) ∧
  (∀ idea b st, ∃ w',
     fst <$> SectionView.handleGenerateImage_resume chapter section idea b
               (afterReset w) st
     = Some w' ∧
     App.outline (app w') = None ∧ objs (sto w') = objs (sto w)) ∧
  (∀ topics st, ∃ w',
     fst <$> addTopicsAsSections chapter topics (afterReset w) st = Some w' ∧
     App.outline (app w') = None).
Proof.
  intros H0 Hs0. split_and!.
  - intros idea data st.
    unfold ChapterView.handleGenerateExercises_resume, ChapterView.handleAction_resume.
    cbn [truthy truthy_data afterReset sto].
    by rewrite (readChapter_at (sto w) chapter ch0 H0).
  - intros img txt solution st.
    unfold ChapterView.handleSolverSubmit_resume, ChapterView.handleAction_resume.
    destruct (truthy solution); [|reflexivity].
    cbn [afterReset sto]. by rewrite (readChapter_at (sto w) chapter ch0 H0).
  - intros content0 st. unfold handleGenerateContent_resume. cbn [afterReset sto].
    rewrite (readChapter_at (sto w) chapter ch0 H0).
    by rewrite (readSection_at (sto w) section sec0 Hs0).
  - intros id. unfold ChapterView.onDeleteExerciseSet. cbn [afterReset sto].
    by rewrite (readChapter_at (sto w) chapter ch0 H0).
  - intros id. unfold ChapterView.onDeleteSolverSet. cbn [afterReset sto].
    by rewrite (readChapter_at (sto w) chapter ch0 H0).
  - done.
  - intros idea data st. destruct data; by eexists.
  - intros idea b st.
    unfold SectionView.handleGenerateImage_resume.
    destruct (truthy b); [|by eexists].
    cbn [afterReset sto]. rewrite (readChapter_at (sto w) chapter ch0 H0).
    rewrite (readSection_at (sto w) section sec0 Hs0). by eexists.
  - intros topics st.
    destruct (mapM_sectionOfTopic topics (sto w))
      as (news & σ1 & Hmap & H01 & _).
    unfold addTopicsAsSections. cbn [afterReset sto]. rewrite Hmap.
    rewrite (readChapter_at σ1 chapter ch0) by (by eapply lookup_extends).
    by eexists.
Qed.

Lemma late_results_after_reset_witness :
  fst <$> ChapterView.handleGenerateExercises_resume 2%positive (lit "limits") demo_data
            (afterReset demo_world) demo_typing
  = Some (afterReset demo_world) ∧
  currentOutline (afterReset demo_world) = None ∧
  ∃ w',
    fst <$> OutlineView.handleGenerateExam_resume (lit "limits")
              (ExamExercises demo_data) (afterReset demo_world) OutlineView.initial
    = Some w' ∧
    App.outline (app w') = None ∧ objs (sto w') = objs demo_store.
Proof.
  destruct (late_results_after_reset demo_world 2%positive 1%positive
              {| chap_id := lit "c1"; chap_title := lit "Sets";
                 sections := [1%positive]; exerciseSets := [demo_set];
                 solverSets := [] |}
              {| sec_id := lit "s1"; sec_title := lit "Unions";
                 content := None; images := [] |} eq_refl eq_refl)
    as (Hex & _ & _ & _ & _ & _ & Hexam & _).
  split_and!; [apply Hex|reflexivity|apply Hexam].
Defined.

(** ** The frame of [updateSection] *)



(** ** Outline generation *)

Lemma get_field_set_field_eq (k : jsstring) (v : jsval) fields :
  get_field k (set_field k v fields) = v.
Proof.
  induction fields as [|[k' u] fs IH]; cbn.
  - by rewrite decide_True.
  - destruct (decide (k' = k)) as [->|Hne]; cbn.
    + by rewrite decide_True.
    + by rewrite decide_False.
Qed.

Lemma get_field_set_field_ne (k k0 : jsstring) (v : jsval) fields :
  k0 ≠ k → get_field k (set_field k0 v fields) = get_field k fields.
Proof.
  intros Hne. induction fields as [|[k' u] fs IH]; cbn.
  - by rewrite decide_False.
  - destruct (decide (k' = k0)) as [->|Hne']; cbn.
    + by rewrite !decide_False.
    + destruct (decide (k' = k)); done.
Qed.

Lemma advance_minted (n : nat) (σ : store) :
  advance n (minted σ) = advance (S n) σ.
Proof. unfold advance, minted; cbn. f_equal. lia. Qed.

Lemma advance_advance (n m : nat) (σ : store) :
  advance n (advance m σ) = advance (m + n) σ.
Proof. unfold advance; cbn. f_equal. lia. Qed.

Lemma advance_0 (σ : store) : advance 0 σ = σ.
Proof. by destruct σ. Qed.

Lemma mapT_outlineSection (secs : list jsval) (σ : store) :
  ∃ secs',
    mapT outlineSection secs σ = (Some secs', advance (length secs) σ) ∧
    Forall2 is_generated_section secs secs' ∧
    id_of <$> secs' =
      (λ i, JStr (uuid_source σ i)) <$> seq (uuid_count σ) (length secs).
Proof.
  revert σ. induction secs as [|t secs IH]; intros σ.
  - exists []. cbn. by rewrite advance_0.
  - destruct (IH (minted σ)) as (secs' & Hrun & Hshape & Hids).
    eexists (_ :: secs'). cbn [mapT outlineSection]. rewrite Hrun.
    rewrite advance_minted. split_and!.
    + reflexivity.
    + constructor; [by eexists|done].
    + cbn [length seq fmap list_fmap]. f_equal. exact Hids.
Qed.

Lemma outlineChapter_shaped (chap : jsval) (σ : store) :
  chapter_shaped chap →
  ∃ c n,
    outlineChapter chap σ = (Some c, advance (S n) σ) ∧
    is_generated_chapter chap c ∧
    chapter_ids c =
      (λ i, JStr (uuid_source σ i)) <$> seq (uuid_count σ) (S n).
Proof.
  intros [secs Hsecs].
  assert (∃ title, get_prop (lit "title") chap = Some title) as [title Htitle].
  { destruct chap; try discriminate; by eexists. }
  destruct (mapT_outlineSection secs (minted σ)) as (secs' & Hrun & Hshape & Hids).
  eexists _, (length secs). unfold outlineChapter.
  rewrite Htitle, Hsecs, Hrun, advance_minted. split_and!.
  - reflexivity.
  - by eexists _, _, _, _.
  - cbn [seq fmap list_fmap]. unfold chapter_ids. f_equal.
    change (id_of <$> secs' =
            (λ i, JStr (uuid_source σ i)) <$> seq (S (uuid_count σ)) (length secs)).
    exact Hids.
Qed.

Lemma outlineChapter_returns (chap c : jsval) (σ σ' : store) :
  outlineChapter chap σ = (Some c, σ') → chapter_shaped chap.
Proof.
  unfold outlineChapter. intros Hrun.
  destruct (get_prop (lit "title") chap); [|discriminate].
  destruct (get_prop (lit "sections") chap) as [[]|] eqn:Hsecs; try discriminate.
  by eexists.
Qed.

Lemma mapT_outlineChapter (chs : list jsval) (σ : store) :
  Forall chapter_shaped chs →
  ∃ chs' n,
    mapT outlineChapter chs σ = (Some chs', advance n σ) ∧
    Forall2 is_generated_chapter chs chs' ∧
    chs' ≫= chapter_ids =
      (λ i, JStr (uuid_source σ i)) <$> seq (uuid_count σ) n.
Proof.
  intros Hall. revert σ. induction Hall as [|chap chs Hchap _ IH]; intros σ.
  - exists [], 0. cbn. by rewrite advance_0.
  - destruct (outlineChapter_shaped chap σ Hchap) as (c & n & Hc & Hshape & Hids).
    destruct (IH (advance (S n) σ)) as (chs' & m & Hrun & Hshapes & Hids').
    exists (c :: chs'), (S n + m). cbn [mapT]. rewrite Hc, Hrun, advance_advance.
    split_and!.
    + reflexivity.
    + by constructor.
    + change ((c :: chs') ≫= chapter_ids) with (chapter_ids c ++ (chs' ≫= chapter_ids)).
      rewrite Hids, Hids', seq_app, fmap_app. f_equal.
      unfold advance; cbn [uuid_source uuid_count]. do 2 f_equal. lia.
Qed.

Lemma mapT_outlineChapter_returns (chs chs' : list jsval) (σ σ' : store) :
  mapT outlineChapter chs σ = (Some chs', σ') → Forall chapter_shaped chs.
Proof.
  revert chs' σ σ'. induction chs as [|chap chs IH]; intros chs' σ σ' Hrun.
  - constructor.
  - cbn [mapT] in Hrun.
    destruct (outlineChapter chap σ) as [[c|] σ1] eqn:Hc; [|discriminate].
    destruct (mapT outlineChapter chs σ1) as [[cs|] σ2] eqn:Hcs; [|discriminate].
    constructor; [by eapply outlineChapter_returns|by eapply IH].
Qed.

(** What [generateOutline] does with a response it accepts. *)
Lemma generateOutline_accepts (number_truthy : jsstring → bool)
    (text : jsstring) (fields : list (jsstring * jsval)) (chs : list jsval)
    (σ : store) :
  JSON_parse (cleanup text) = Some (JObj fields) →
  truthy_jsval number_truthy (get_field (lit "title") fields) = true →
  get_field (lit "chapters") fields = JArr chs →
  Forall chapter_shaped chs →
  ∃ chs' n,
    generateOutline number_truthy (Responds text) σ =
      (JObj (set_field (lit "examSets") (JArr [])
               (set_field (lit "chapters") (JArr chs') fields)),
       advance n σ) ∧
    Forall2 is_generated_chapter chs chs' ∧
    chs' ≫= chapter_ids =
      (λ i, JStr (uuid_source σ i)) <$> seq (uuid_count σ) n.
Proof.
  intros Hparse Htitle Hchs Hall.
  destruct (mapT_outlineChapter chs σ Hall) as (chs' & n & Hrun & Hshape & Hids).
  exists chs', n. split_and!; [|done..].
  unfold generateOutline, tryParseJson. rewrite Hparse. cbn [truthy_jsval negb get_prop].
  rewrite Htitle. cbn [negb]. rewrite Hchs, Hrun. reflexivity.
Qed.

(** What a response must have been when [generateOutline] returns an
    outline. *)
Lemma generateOutline_returns (number_truthy : jsstring → bool)
    (r : response) (σ : store) :
  fst (generateOutline number_truthy r σ) ≠ JNull →
  ∃ text fields chs,
    r = Responds text ∧
    JSON_parse (cleanup text) = Some (JObj fields) ∧
    truthy_jsval number_truthy (get_field (lit "title") fields) = true ∧
    get_field (lit "chapters") fields = JArr chs ∧
    Forall chapter_shaped chs.
Proof.
  destruct r as [text|]; [|done]. unfold generateOutline, tryParseJson.
  destruct (JSON_parse (cleanup text)) as [parsed|] eqn:Hparse; [|done].
  destruct (truthy_jsval number_truthy parsed) eqn:Htruthy; [|done]. cbn [negb].
  destruct (get_prop (lit "title") parsed) as [title|] eqn:Htitle; [|done].
  destruct (truthy_jsval number_truthy title) eqn:Htt; [|done]. cbn [negb].
  destruct (get_prop (lit "chapters") parsed) as [[]|] eqn:Hchs; try done.
  destruct parsed; try discriminate. cbn in Htitle, Hchs.
  injection Htitle as <-. injection Hchs as Hchs.
  destruct (mapT outlineChapter _ σ) as [[chs'|] σ'] eqn:Hrun; [|done].
  intros _. eexists _, _, _. split_and!; try done.
  by eapply mapT_outlineChapter_returns.
Qed.

(** X16.  [generateOutline] returns an outline, rather than [null],
    exactly when the request resolved with a text that, once cleaned
    up, parses to a JSON object with a truthy [title] and an array
    [chapters] each of whose elements is neither [null] nor without an
    array [sections].  Every other response, a chapter given as [null]
    or with [sections] missing included, is answered with [null]. *)
Theorem generateOutline_validates (number_truthy : jsstring → bool)
    (r : response) (σ : store) :
  fst (generateOutline number_truthy r σ) ≠ JNull ↔
  ∃ text fields chs,
    r = Responds text ∧
    JSON_parse (cleanup text) = Some (JObj fields) ∧
    truthy_jsval number_truthy (get_field (lit "title") fields) = true ∧
    get_field (lit "chapters") fields = JArr chs ∧
    Forall chapter_shaped chs.
Proof.
  split.
  - apply generateOutline_returns.
  - intros (text & fields & chs & -> & Hparse & Htitle & Hchs & Hall).
    destruct (generateOutline_accepts number_truthy text fields chs σ
                Hparse Htitle Hchs Hall) as (chs' & n & -> & _).
    done.
Qed.

Lemma demo_outline_parses :
  JSON_parse (cleanup demo_outline_json) =
    Some (JObj [(lit "title", JStr (lit "T"));
                (lit "chapters",
                 JArr [JObj [(lit "title", JStr (lit "A"));
                             (lit "sections", JArr [JStr (lit "x"); JStr (lit "y")])];
                       JObj [(lit "title", JStr (lit "B"));
                             (lit "sections", JArr [])]])]).
Proof. vm_compute. reflexivity. Qed.

Lemma generateOutline_validates_witness :
  fst (generateOutline (λ _, true) (Responds demo_outline_json) demo_store) ≠ JNull.
Proof.
  apply generateOutline_validates. eexists _, _, _. split_and!.
  - reflexivity.
  - exact demo_outline_parses.
  - reflexivity.
  - reflexivity.
  - repeat constructor; by eexists.
Defined.

(** X17.  An outline that [generateOutline] returns is the parsed
    response with two properties replaced: [chapters] holds one
    generated chapter per chapter of the response, in order, each with
    the response chapter's title, one section per section title with
    [content] [null] and no images, and empty [exerciseSets] and
    [solverSets]; [examSets] is the empty array.  Every other property
    of the response, [title] included, is carried over unchanged. *)
Theorem generateOutline_shape (number_truthy : jsstring → bool)
    (text : jsstring) (σ σ' : store) (v : jsval) :
  generateOutline number_truthy (Responds text) σ = (v, σ') →
  v ≠ JNull →
  ∃ fields chs chs',
    tryParseJson text JNull = JObj fields ∧
    get_field (lit "chapters") fields = JArr chs ∧
    Forall2 is_generated_chapter chs chs' ∧
    get_prop (lit "chapters") v = Some (JArr chs') ∧
    get_prop (lit "examSets") v = Some (JArr []) ∧
    ∀ k, k ≠ lit "chapters" → k ≠ lit "examSets" →
         get_prop k v = Some (get_field k fields).
Proof.
  intros Hrun Hv.
  destruct (generateOutline_returns number_truthy (Responds text) σ)
    as (text' & fields & chs & [= <-] & Hparse & Htitle & Hchs & Hall).
  { by rewrite Hrun. }
  destruct (generateOutline_accepts number_truthy text fields chs σ
              Hparse Htitle Hchs Hall) as (chs' & n & Hrun' & Hshape & _).
  rewrite Hrun' in Hrun. injection Hrun as <- <-.
  exists fields, chs, chs'. split_and!.
  - unfold tryParseJson. by rewrite Hparse.
  - done.
  - done.
  - cbn [get_prop]. rewrite get_field_set_field_ne by done.
    by rewrite get_field_set_field_eq.
  - cbn [get_prop]. by rewrite get_field_set_field_eq.
  - intros k Hk1 Hk2. cbn [get_prop].
    by rewrite !get_field_set_field_ne.
Qed.

Lemma generateOutline_shape_witness :
  ∃ fields chs chs',
    tryParseJson demo_outline_json JNull = JObj fields ∧
    get_field (lit "chapters") fields = JArr chs ∧
    Forall2 is_generated_chapter chs chs' ∧
    get_prop (lit "chapters")
      (fst (generateOutline (λ _, true) (Responds demo_outline_json) demo_store))
      = Some (JArr chs') ∧
    get_prop (lit "examSets")
      (fst (generateOutline (λ _, true) (Responds demo_outline_json) demo_store))
      = Some (JArr []) ∧
    ∀ k, k ≠ lit "chapters" → k ≠ lit "examSets" →
         get_prop k
           (fst (generateOutline (λ _, true) (Responds demo_outline_json) demo_store))
         = Some (get_field k fields).
Proof.
  apply (generateOutline_shape (λ _, true) demo_outline_json demo_store
           (snd (generateOutline (λ _, true) (Responds demo_outline_json) demo_store))).
  - apply surjective_pairing.
  - vm_compute. discriminate.
Defined.

(** X18.  The ids of a returned outline, chapter by chapter and each
    chapter's id before those of its sections, are consecutive results
    of [crypto.randomUUID()] starting at the first one not yet used;
    the store afterwards differs only in that these are used up.  So
    when the generator never repeats itself, no two chapters or
    sections of the outline share an id. *)
Theorem generateOutline_ids (number_truthy : jsstring → bool)
    (r : response) (σ σ' : store) (v : jsval) :
  generateOutline number_truthy r σ = (v, σ') →
  v ≠ JNull →
  ∃ n,
    σ' = advance n σ ∧
    outline_ids v = (λ i, JStr (uuid_source σ i)) <$> seq (uuid_count σ) n ∧
    (Inj (=) (=) (uuid_source σ) → NoDup (outline_ids v)).
Proof.
  intros Hrun Hv.
  destruct (generateOutline_returns number_truthy r σ)
    as (text & fields & chs & -> & Hparse & Htitle & Hchs & Hall).
  { by rewrite Hrun. }
  destruct (generateOutline_accepts number_truthy text fields chs σ
              Hparse Htitle Hchs Hall) as (chs' & n & Hrun' & _ & Hids).
  rewrite Hrun' in Hrun. injection Hrun as <- <-.
  assert (outline_ids
            (JObj (set_field (lit "examSets") (JArr [])
                     (set_field (lit "chapters") (JArr chs') fields)))
          = (λ i, JStr (uuid_source σ i)) <$> seq (uuid_count σ) n) as Hout.
  { unfold outline_ids. rewrite get_field_set_field_ne by done.
    by rewrite get_field_set_field_eq. }
  exists n. split_and!; [done..|].
  intros Hinj. rewrite Hout. apply NoDup_fmap_2.
  - intros i j [= Heq]. by apply Hinj.
  - apply NoDup_seq.
Qed.

Lemma demo_uuid_source_inj : Inj (=) (=) (uuid_source demo_store).
Proof.
  intros i j Heq. cbn in Heq. injection Heq as Heq. lia.
Qed.

Lemma generateOutline_ids_witness :
  ∃ n,
    snd (generateOutline (λ _, true) (Responds demo_outline_json) demo_store)
      = advance n demo_store ∧
    outline_ids (fst (generateOutline (λ _, true) (Responds demo_outline_json) demo_store))
      = (λ i, JStr (uuid_source demo_store i)) <$> seq (uuid_count demo_store) n ∧
    (Inj (=) (=) (uuid_source demo_store) →
     NoDup (outline_ids
              (fst (generateOutline (λ _, true) (Responds demo_outline_json) demo_store)))).
Proof.
  apply (generateOutline_ids (λ _, true) (Responds demo_outline_json)).
  - apply surjective_pairing.
  - vm_compute. discriminate.
Defined.
